(** * FoodPrint-AI: footprint matching, aggregation and input validation

    A shallow embedding of the core of the service:
    - [utils/helpers]     ([normalizeIngredientName], [sanitizeTextInput],
                           [findBestIngredientMatch]),
    - [utils/constants]   ([CARBON_FOOTPRINT_DB]),
    - [services/carbonService] ([calculateCarbonFootprint]),
    - [middleware/validation]  ([validateTextEstimation],
                                [validateImageUpload]),
    - [middleware/auth]        ([authenticateApiKey], [optionalAuth]).

    Conventions of the embedding.
    - A JavaScript string is the list of its UTF-16 code units ([list N]).
    - A JavaScript number is an exact rational or [NaN]; the rounding error
      of binary64 arithmetic and the infinities are outside the model.
    - The value read by [obj[k]] follows the prototype chain of a plain
      object: own properties first, then [Object.prototype].
    - A middleware returns what it hands on: [next] with the request as
      it then stands, or [next_err] with the error it caught, which for
      the text route can be a [TypeError] too ([next_TypeError]).
    - A request body is the value of the JSON parser; the copy of it
      that Joi validates follows [Object.assign], for which the key
      [__proto__] is no plain property.
    - The clock is an input of the function that reads it. *)

From Stdlib Require Import ZArith NArith QArith Qround List Bool String Ascii Lia Lqa.
From Stdlib Require Strings.Byte.
Import ListNotations.

Set Implicit Arguments.
Set Warnings "-register-all,-abstract-large-number".

Close Scope Q_scope.
Open Scope nat_scope.

(* ================================================================== *)
(** ** JavaScript strings *)
(* ================================================================== *)

Module JS.

Definition jsstring := list N.

(** An ASCII literal as a JavaScript string. *)
Definition lit (s : string) : jsstring :=
  List.map N_of_ascii (list_ascii_of_string s).

Fixpoint str_eqb (a b : jsstring) : bool :=
  match a, b with
  | [], [] => true
  | x :: a', y :: b' => (x =? y)%N && str_eqb a' b'
  | _, _ => false
  end.

Definition in_range (lo hi c : N) : bool := ((lo <=? c) && (c <=? hi))%N.

Definition is_lower (c : N) : bool := in_range 97 122 c.
Definition is_upper (c : N) : bool := in_range 65 90 c.
Definition is_digit (c : N) : bool := in_range 48 57 c.

(** [\w] of a regular expression without the [u] flag: [[A-Za-z0-9_]]. *)
Definition is_word (c : N) : bool :=
  is_lower c || is_upper c || is_digit c || (c =? 95)%N.

(** [\s], which is also what [String.prototype.trim] removes: WhiteSpace
    and LineTerminator code points. *)
Definition is_space (c : N) : bool :=
  in_range 9 13 c || (c =? 32)%N || (c =? 0xA0)%N || (c =? 0x1680)%N
  || in_range 0x2000 0x200A c || (c =? 0x2028)%N || (c =? 0x2029)%N
  || (c =? 0x202F)%N || (c =? 0x205F)%N || (c =? 0x3000)%N
  || (c =? 0xFEFF)%N.

(** LineTerminator: what [.] does not match. *)
Definition is_line_terminator (c : N) : bool :=
  (c =? 10)%N || (c =? 13)%N || (c =? 0x2028)%N || (c =? 0x2029)%N.

Definition space : N := 32%N.

Fixpoint trimStart (s : jsstring) : jsstring :=
  match s with
  | [] => []
  | c :: t => if is_space c then trimStart t else s
  end.

(** The longest all-whitespace suffix is dropped. *)
Fixpoint trimEnd (s : jsstring) : jsstring :=
  match s with
  | [] => []
  | c :: t => if forallb is_space (c :: t) then [] else c :: trimEnd t
  end.

Definition trim (s : jsstring) : jsstring := trimEnd (trimStart s).

(** [String.prototype.toLowerCase], one code unit at a time.  The ASCII
    capitals, and the two code points outside ASCII whose lowercase form
    has an ASCII letter in it (U+0130 and the Kelvin sign U+212A), are
    mapped as Unicode prescribes.  Every other code unit is left as it
    is: its lowercase form is a letter outside ASCII, which the only
    caller erases in its next step together with the unmapped unit. *)
Definition lower_unit (c : N) : list N :=
  if is_upper c then [(c + 32)%N]
  else if (c =? 0x130)%N then [0x69%N; 0x307%N]
  else if (c =? 0x212A)%N then [0x6B%N]
  else [c].

Definition toLowerCase (s : jsstring) : jsstring := flat_map lower_unit s.

(** [w] read off the front of [s]: the rest of [s] when it is there. *)
Fixpoint strip_prefix (w s : jsstring) : option jsstring :=
  match w, s with
  | [], _ => Some s
  | a :: w', b :: s' => if (a =? b)%N then strip_prefix w' s' else None
  | _ :: _, [] => None
  end.

Definition startsWith (s w : jsstring) : bool :=
  match strip_prefix w s with Some _ => true | None => false end.

(** [s.includes(w)]. *)
Fixpoint includes (s w : jsstring) : bool :=
  startsWith s w ||
  match s with
  | [] => false
  | _ :: t => includes t w
  end.

(** [s.slice(0, n)]. *)
Definition slice0 (n : nat) (s : jsstring) : jsstring := firstn n s.

(** ASCII case folding, the whole effect of the [i] flag on a pattern
    made of ASCII characters (without the [u] flag a code unit outside
    ASCII never folds onto an ASCII one). *)
Definition fold_case (c : N) : N := if is_upper c then (c + 32)%N else c.

(** *** Numbers and values *)

Inductive number : Type :=
| Fin (q : Q)
| NaN.

Definition nmul (a b : number) : number :=
  match a, b with
  | Fin x, Fin y => Fin (x * y)
  | _, _ => NaN
  end.

Definition nadd (a b : number) : number :=
  match a, b with
  | Fin x, Fin y => Fin (x + y)
  | _, _ => NaN
  end.

(** Division by a non-zero literal. *)
Definition ndiv (a : number) (d : Q) : number :=
  match a with
  | Fin x => Fin (x / d)
  | NaN => NaN
  end.

(** [Math.round]: the nearest integer, halves towards plus infinity. *)
Definition Math_round (a : number) : number :=
  match a with
  | Fin x => Fin (inject_Z (Qfloor (x + (1 # 2))))
  | NaN => NaN
  end.

(** Falsy numbers are [0] and [NaN]. *)
Definition number_truthy (a : number) : bool :=
  match a with
  | Fin x => negb (Qeq_bool x 0)
  | NaN => false
  end.

(** Two numbers that denote the same value. *)
Definition same_number (a b : number) : Prop :=
  match a, b with
  | Fin x, Fin y => (x == y)%Q
  | NaN, NaN => True
  | _, _ => False
  end.

(** What a property read [obj[k]] on a table of numbers can yield:
    an own number, something inherited from [Object.prototype] (a
    function, or the prototype object itself for [__proto__]), or
    [undefined]. *)
Inductive value : Type :=
| VNumber (n : number)
| VInherited
| VUndefined.

Definition truthy (v : value) : bool :=
  match v with
  | VNumber n => number_truthy n
  | VInherited => true
  | VUndefined => false
  end.

(** [ToNumber]: a function or a plain object converts to [NaN], and so
    does [undefined]. *)
Definition toNumber (v : value) : number :=
  match v with
  | VNumber n => n
  | VInherited => NaN
  | VUndefined => NaN
  end.

(** A [Record<string, number>] built by an object literal: its own
    properties in the order [Object.keys] lists them (insertion order;
    none of the keys used here is an array index). *)
Definition table := list (jsstring * number).

Definition keys (t : table) : list jsstring := List.map fst t.

Fixpoint own (t : table) (k : jsstring) : option number :=
  match t with
  | [] => None
  | (k', v) :: t' => if str_eqb k k' then Some v else own t' k
  end.

(** The property names every plain object inherits. *)
Definition object_prototype_keys : list jsstring :=
  List.map lit
    ["constructor"; "hasOwnProperty"; "isPrototypeOf";
     "propertyIsEnumerable"; "toLocaleString"; "toString"; "valueOf";
     "__proto__"; "__defineGetter__"; "__defineSetter__";
     "__lookupGetter__"; "__lookupSetter__"]%string.

(** [t[k]]. *)
Definition get (t : table) (k : jsstring) : value :=
  match own t k with
  | Some v => VNumber v
  | None =>
      if existsb (str_eqb k) object_prototype_keys then VInherited
      else VUndefined
  end.

End JS.

Import JS.

(* ================================================================== *)
(** ** utils/constants *)
(* ================================================================== *)

Module Constants.

Definition SUPPORTED_IMAGE_TYPES : list jsstring :=
  List.map lit ["image/jpeg"; "image/jpg"; "image/png"; "image/webp"]%string.

Definition entry (k : string) (v : Q) : jsstring * number := (lit k, Fin v).

Definition CARBON_FOOTPRINT_DB : table :=
  [ entry "beef" 60.0;
    entry "lamb" 39.2;
    entry "pork" 12.1;
    entry "chicken" 6.9;
    entry "fish" 6.1;
    entry "shrimp" 18.0;
    entry "eggs" 4.2;
    entry "milk" 3.2;
    entry "cheese" 13.5;
    entry "butter" 23.8;
    entry "rice" 4.0;
    entry "wheat" 1.4;
    entry "bread" 1.6;
    entry "pasta" 1.1;
    entry "potatoes" 0.5;
    entry "tomatoes" 2.1;
    entry "onions" 0.5;
    entry "carrots" 0.4;
    entry "olive oil" 5.4;
    entry "vegetable oil" 3.2;
    entry "salt" 0.1;
    entry "sugar" 1.8;
    entry "beans" 2.0;
    entry "lentils" 1.9;
    entry "tofu" 3.0;
    entry "nuts" 2.3;
    entry "spices" 1.0;
    entry "unknown" 2.0 ].

End Constants.

(* ================================================================== *)
(** ** utils/helpers *)
(* ================================================================== *)

Module Helpers.

(** [[a-z0-9\s]]. *)
Definition kept (c : N) : bool := is_lower c || is_digit c || is_space c.

(** [.replace(/[^a-z0-9\s]/g, '')]. *)
Definition strip_other (s : jsstring) : jsstring := filter kept s.

(** [.replace(/\s+/g, ' ')]: every maximal run of whitespace becomes one
    space; [in_run] says that the previous code unit was whitespace. *)
Fixpoint collapse_ws (in_run : bool) (s : jsstring) : jsstring :=
  match s with
  | [] => []
  | c :: t =>
      if is_space c
      then (if in_run then collapse_ws true t else space :: collapse_ws true t)
      else c :: collapse_ws false t
  end.

Definition qualifiers : list jsstring :=
  List.map lit ["fresh"; "dried"; "raw"; "cooked"; "organic"; "ground"]%string.

(** [\b] between a code unit (or the start) and the rest of the input:
    exactly one side is a word character. *)
Definition at_boundary (prev_word : bool) (s : jsstring) : bool :=
  xorb prev_word (match s with [] => false | c :: _ => is_word c end).

(** The alternation followed by [\b], tried in order at the front of
    [s]; every alternative ends in a letter. *)
Fixpoint first_alt (alts : list jsstring) (s : jsstring) : option jsstring :=
  match alts with
  | [] => None
  | q :: alts' =>
      match strip_prefix q s with
      | Some rest => if at_boundary true rest then Some rest else first_alt alts' s
      | None => first_alt alts' s
      end
  end.

(** [/\b(fresh|dried|raw|cooked|organic|ground)\b/] tried at the front of
    [s]: what follows the match. *)
Definition match_qualifier (prev_word : bool) (s : jsstring) : option jsstring :=
  if at_boundary prev_word s then first_alt qualifiers s else None.

(** [.replace(/\b(...)\b/g, '')], scanning left to right; a match is
    dropped and the scan goes on after it.  A match is never empty, so
    the length of the input is fuel enough. *)
Fixpoint remove_from (fuel : nat) (prev_word : bool) (s : jsstring) : jsstring :=
  match s with
  | [] => []
  | c :: t =>
      match fuel with
      | O => s
      | S fuel' =>
          match match_qualifier prev_word s with
          | Some rest => remove_from fuel' true rest
          | None => c :: remove_from fuel' (is_word c) t
          end
      end
  end.

Definition remove_qualifiers (s : jsstring) : jsstring :=
  remove_from (List.length s) false s.

Definition normalizeIngredientName (name : jsstring) : jsstring :=
  trim (remove_qualifiers (collapse_ws false (strip_other (trim (toLowerCase name))))).

(** [input.trim().replace(/[<>]/g, '').slice(0, 200)]. *)
Definition sanitizeTextInput (input : jsstring) : jsstring :=
  slice0 200
    (filter (fun c => negb ((c =? 60)%N || (c =? 62)%N)) (trim input)).

Record Match : Type := { key : jsstring; confidence : number }.

(** The callback of [partialMatches.reduce]. *)
Definition longer (a b : jsstring) : jsstring :=
  if (List.length b <? List.length a)%nat then a else b.

Definition partial_match (normalized k : jsstring) : bool :=
  includes normalized k || includes k normalized.

(** The declared result is [{ key, confidence } | null]. *)
Definition findBestIngredientMatch (ingredientName : jsstring) (database : table)
  : option Match :=
  let normalized := normalizeIngredientName ingredientName in
  if truthy (get database normalized)
  then Some {| key := normalized; confidence := Fin 1.0 |}
  else
    let dbKeys := keys database in
    let partialMatches := filter (partial_match normalized) dbKeys in
    match partialMatches with
    | first :: others =>
        let bestMatch := fold_left longer others first in
        Some {| key := bestMatch; confidence := Fin 0.8 |}
    | [] => Some {| key := lit "unknown"; confidence := Fin 0.3 |}
    end.

End Helpers.

(* ================================================================== *)
(** ** models and services/carbonService *)
(* ================================================================== *)

Module CarbonService.

Import Constants Helpers.

Inductive Source : Type := text | image.

(** An element of the [ingredients] argument. *)
Record RawIngredient : Type :=
  { raw_name : jsstring; raw_confidence : option number }.

Record Ingredient : Type :=
  { name : jsstring; carbon_kg : number; confidence : number }.

Record Metadata : Type :=
  { processing_time_ms : number; source : Source }.

Record CarbonEstimate : Type :=
  { dish : jsstring;
    estimated_carbon_kg : number;
    ingredients : list Ingredient;
    metadata : Metadata }.

(** [x || d] on an optional number. *)
Definition or_default (x : option number) (d : number) : number :=
  match x with
  | Some c => if number_truthy c then c else d
  | None => d
  end.

(** [Math.round(x * 100) / 100]. *)
Definition round2 (x : number) : number :=
  ndiv (Math_round (nmul x (Fin 100))) 100.

(** The two locals [carbonValue] and [confidence] of the [map] callback,
    as they stand when they are logged, before rounding. *)
Definition mapping (ingredient : RawIngredient) : value * number :=
  let normalizedName := normalizeIngredientName (raw_name ingredient) in
  match findBestIngredientMatch normalizedName CARBON_FOOTPRINT_DB with
  | Some m =>
      (get CARBON_FOOTPRINT_DB (key m),
       nmul (Helpers.confidence m) (or_default (raw_confidence ingredient) (Fin 0.8)))
  | None => (get CARBON_FOOTPRINT_DB (lit "unknown"), Fin 0.3)
  end.

Definition carbonValue (ingredient : RawIngredient) : value :=
  fst (mapping ingredient).

Definition blendedConfidence (ingredient : RawIngredient) : number :=
  snd (mapping ingredient).

Definition processIngredient (ingredient : RawIngredient) : Ingredient :=
  {| name := raw_name ingredient;
     carbon_kg := round2 (toNumber (carbonValue ingredient));
     confidence := round2 (blendedConfidence ingredient) |}.

(** [xs.reduce((sum, x) => sum + x.carbon_kg, 0)]. *)
Definition totalCarbon (processedIngredients : list Ingredient) : number :=
  fold_left (fun sum ingredient => nadd sum (carbon_kg ingredient))
            processedIngredients (Fin 0).

(** [calculationDuration] is the reading of the clock, an input here. *)
Definition calculateCarbonFootprint
    (dishName : jsstring) (ingredients : list RawIngredient) (source : Source)
    (processingTimeMs : option number) (calculationDuration : number)
  : CarbonEstimate :=
  let processedIngredients := List.map processIngredient ingredients in
  {| dish := dishName;
     estimated_carbon_kg := round2 (totalCarbon processedIngredients);
     ingredients := processedIngredients;
     metadata :=
       {| processing_time_ms :=
            match processingTimeMs with
            | Some t =>
                if number_truthy t
                then Math_round (nadd t calculationDuration)
                else Math_round calculationDuration
            | None => Math_round calculationDuration
            end;
          source := source |} |}.

End CarbonService.

(* ================================================================== *)
(** ** middleware/validation *)
(* ================================================================== *)

Module Validation.

Import Helpers.

(** *** Regular expressions of the shapes the middleware uses

    A pattern is a sequence of items: one code unit of a class, any
    number of code units of a class, or the end of the input ([$]
    without the [m] flag). *)
Inductive item : Type :=
| One (p : N -> bool)
| Many (p : N -> bool)
| Eos.

Definition pattern := list item.

Fixpoint many (p : N -> bool) (k : jsstring -> bool) (s : jsstring) : bool :=
  k s ||
  match s with
  | [] => false
  | c :: t => p c && many p k t
  end.

Fixpoint match_here (pat : pattern) (s : jsstring) : bool :=
  match pat with
  | [] => true
  | One p :: pat' =>
      match s with
      | [] => false
      | c :: t => p c && match_here pat' t
      end
  | Many p :: pat' => many p (match_here pat') s
  | Eos :: pat' =>
      match s with
      | [] => match_here pat' []
      | _ :: _ => false
      end
  end.

(** [pattern.test(s)] for a pattern without [^]: a match may start
    anywhere. *)
Fixpoint test (pat : pattern) (s : jsstring) : bool :=
  match_here pat s ||
  match s with
  | [] => false
  | _ :: t => test pat t
  end.

(** The characters of [w], one after the other. *)
Definition cs (w : string) : pattern :=
  List.map (fun c => One (N.eqb c)) (lit w).

(** The same under the [i] flag. *)
Definition ci (w : string) : pattern :=
  List.map (fun c => One (fun x => (fold_case x =? fold_case c)%N)) (lit w).

(** [.] *)
Definition dot : N -> bool := fun c => negb (is_line_terminator c).

(** *** Request bodies *)

(** A body as the JSON parser leaves it.  A number is kept as the text
    [JSON.stringify] prints for it; the keys of an object are distinct. *)
Inductive json : Type :=
| JNull
| JBool (b : bool)
| JNumber (text : jsstring)
| JString (s : jsstring)
| JArray (items : list json)
| JObject (fields : list (jsstring * json)).

Definition is_high_surrogate (c : N) : bool := in_range 0xD800 0xDBFF c.
Definition is_low_surrogate (c : N) : bool := in_range 0xDC00 0xDFFF c.

(** Code units [JSON.stringify] writes for one code unit that is not a
    surrogate. *)
Definition escape_length (c : N) : nat :=
  if (c =? 8)%N || (c =? 9)%N || (c =? 10)%N || (c =? 12)%N || (c =? 13)%N
     || (c =? 0x22)%N || (c =? 0x5C)%N
  then 2
  else if (c <? 0x20)%N then 6 else 1.

(** Code units between the quotes of [JSON.stringify(s)]; a surrogate
    without its partner is written as a [\uXXXX] escape. *)
Fixpoint quoted_length (s : jsstring) : nat :=
  match s with
  | [] => 0
  | c :: t =>
      if is_high_surrogate c then
        match t with
        | d :: t' =>
            if is_low_surrogate d then 2 + quoted_length t'
            else 6 + quoted_length t
        | [] => 6
        end
      else if is_low_surrogate c then 6 + quoted_length t
      else escape_length c + quoted_length t
  end.

(** [JSON.stringify(j).length]. *)
Fixpoint stringify_length (j : json) : nat :=
  match j with
  | JNull => 4
  | JBool true => 4
  | JBool false => 5
  | JNumber text => List.length text
  | JString s => 2 + quoted_length s
  | JArray items =>
      2 + list_sum (List.map stringify_length items) + pred (List.length items)
  | JObject fields =>
      2 + list_sum (List.map (fun kv => 2 + quoted_length (fst kv) + 1
                                        + stringify_length (snd kv)) fields)
        + pred (List.length fields)
  end.

(** [!body]: [undefined] is [None]; [null], [false], [0] and the empty
    string are falsy too. *)
Definition falsy_body (body : option json) : bool :=
  match body with
  | None => true
  | Some JNull => true
  | Some (JBool b) => negb b
  | Some (JNumber text) =>
      str_eqb text (lit "0") || str_eqb text (lit "-0")
  | Some (JString s) => match s with [] => true | _ => false end
  | Some (JArray _) => false
  | Some (JObject _) => false
  end.

(** [typeof body === 'object'] for a body that is not [undefined]. *)
Definition typeof_object (j : json) : bool :=
  match j with
  | JNull | JArray _ | JObject _ => true
  | _ => false
  end.

(** [Object.keys(body).length] of an object or an array. *)
Definition key_count (j : json) : nat :=
  match j with
  | JArray items => List.length items
  | JObject fields => List.length fields
  | _ => 0
  end.

Fixpoint field (k : jsstring) (fields : list (jsstring * json)) : option json :=
  match fields with
  | [] => None
  | (k', v) :: rest => if str_eqb k k' then Some v else field k rest
  end.

(** *** Errors *)

(** The error codes of Joi that this schema can report. *)
Inductive code : Type :=
| any_required
| string_base
| string_empty
| string_min
| string_max
| string_pattern_base
| string_malicious
| string_repeated
| object_base
| object_unknown.

(** The texts given to [.messages] on the [dish] schema. *)
Definition messages (c : code) : option string :=
  match c with
  | string_empty => Some "Dish name cannot be empty"
  | string_min => Some "Dish name must be at least 1 character long"
  | string_max => Some "Dish name cannot exceed 200 characters"
  | string_pattern_base => Some "Dish name contains invalid characters"
  | string_malicious => Some "Dish name contains potentially malicious content"
  | string_repeated => Some "Dish name contains excessive repeated characters"
  | any_required => Some "Dish name is required"
  | _ => None
  end%string.

(** One element of [error.details], as the middleware maps it: the path
    joined with dots, and the code that selects the message. *)
Record Detail : Type := { path : jsstring; reason : code }.

(** The message of a [ValidationError]. *)
Inductive Message : Type :=
| BodyNotObject       (* Request body must be a valid JSON object *)
| BodyTooLarge        (* Request body is too large *)
| TooManyProperties   (* Request body has too many properties *)
| InvalidRequestData  (* Invalid request data *)
| NoImageFile         (* No image file provided *)
| InvalidFileType     (* Invalid file type. Allowed types: ... *)
| FileTooLarge        (* File size exceeds maximum allowed size of ...MB *)
| EmptyFile           (* Uploaded file is empty or corrupted *)
| FilenameTooLong     (* Filename is too long *)
| InvalidExtension    (* Invalid file extension *)
| FileTooSmall        (* File is too small to be a valid image *)
| HeaderMismatch.     (* File header does not match declared image type *)

Inductive Details : Type :=
| NoDetails
| JoiDetails (details : list Detail)
| Received (mimetype : jsstring)
| Sizes (receivedSizeMB maxSizeMB : number).

Record ValidationError : Type := { message : Message; details : Details }.

(** What the middleware does last: [next()] with the request as it then
    stands, or [next(err)] with what was thrown: an error of the
    middleware's own, or the [TypeError] of a call of something that is
    no function. *)
Inductive outcome (A : Type) : Type :=
| next (request : A)
| next_err (err : ValidationError)
| next_TypeError.

Arguments next {A} request.
Arguments next_err {A} err.
Arguments next_TypeError {A}.

Definition throw {A : Type} (m : Message) (d : Details) : outcome A :=
  next_err {| message := m; details := d |}.

(** *** The schema of the text route *)

(** The character class of the [pattern] rule. *)
Definition dish_char (c : N) : bool :=
  is_lower c || is_upper c || is_digit c || is_space c
  || existsb (N.eqb c) (lit "-.,!?'()") || (c =? 0x22)%N
  || in_range 0xC0 0x17F c || in_range 0x4E00 0x9FFF c
  || in_range 0x600 0x6FF c || in_range 0x900 0x97F c.

(** [/^[...]+$/.test(value)]. *)
Definition dish_pattern (value : jsstring) : bool :=
  match value with
  | [] => false
  | _ :: _ => forallb dish_char value
  end.

(** The array of the custom rule, element by element as the source
    text tokenises: the slash that would close the fifteenth literal is
    escaped, so that literal runs on to the [/i] after [passwd]. *)
Definition suspiciousPatterns : list pattern :=
  [ ci "<script"; ci "javascript:"; ci "onload="; ci "onerror=";
    ci "select" ++ [Many dot] ++ ci "from";
    ci "union" ++ [Many dot] ++ ci "select";
    ci "drop" ++ [Many dot] ++ ci "table";
    ci "insert" ++ [Many dot] ++ ci "into";
    ci "delete" ++ [Many dot] ++ ci "from";
    ci "update" ++ [Many dot] ++ ci "set";
    ci "exec" ++ [Many is_space] ++ cs "(";
    ci "eval" ++ [Many is_space] ++ cs "(";
    ci "function" ++ [Many is_space] ++ cs "(";
    cs "../";
    ci "..\/g, /etc/passwd";
    ci "__proto__"; ci "prototype"; ci "constructor" ].

Fixpoint run_length (c : N) (s : jsstring) : nat :=
  match s with
  | [] => 0
  | d :: t => if (d =? c)%N then S (run_length c t) else 0
  end.

(** [/(.)\1{50,}/.test(value)]. *)
Fixpoint repeatedChars (value : jsstring) : bool :=
  match value with
  | [] => false
  | c :: t => (dot c && (50 <=? run_length c t)%nat) || repeatedChars t
  end.

Definition malicious (value : jsstring) : bool :=
  existsb (fun pat => test pat value) suspiciousPatterns.

(** The function given to [.custom]: the code of [helpers.error], or
    nothing when the value is returned. *)
Definition custom (value : jsstring) : option code :=
  if (List.length (trim value) =? 0)%nat then Some string_empty
  else if malicious value then Some string_malicious
  else if repeatedChars value then Some string_repeated
  else None.

(** The rules of a Joi string schema run in the order they were added,
    and validation stops at the first error. *)
Definition rule := jsstring -> option code.

Definition min (limit : nat) : rule :=
  fun value => if (List.length value <? limit)%nat then Some string_min else None.

Definition max (limit : nat) : rule :=
  fun value => if (limit <? List.length value)%nat then Some string_max else None.

Definition matching (re : jsstring -> bool) : rule :=
  fun value => if re value then None else Some string_pattern_base.

Fixpoint run_rules (rules : list rule) (value : jsstring) : option code :=
  match rules with
  | [] => None
  | r :: rules' =>
      match r value with
      | Some c => Some c
      | None => run_rules rules' value
      end
  end.

(** [Joi.string()...required()]: presence, then the type, then the
    empty string, which a string schema refuses unless [min(0)] was
    asked for, then the rules. *)
Definition Joi_string_required (rules : list rule) (v : option json) : option code :=
  match v with
  | None => Some any_required
  | Some (JString value) =>
      match value with
      | [] => Some string_empty
      | _ :: _ => run_rules rules value
      end
  | Some _ => Some string_base
  end.

Definition dish_rules : list rule :=
  [min 1; max 200; matching dish_pattern; custom].

(** Joi validates the keys of an object on a shallow copy of it:
    [Object.create(Object.getPrototypeOf(value))] filled by
    [Object.assign].  [Object.assign] writes with [[Set]], so an own key
    [__proto__] of the body, which the JSON parser creates as a plain
    property, reaches the setter that [Object.prototype] has under that
    name: the copy does not get the key, and the value of the key
    becomes the prototype of the copy when it is an object, an array or
    [null]. *)
Definition clone_own (fields : list (jsstring * json)) : list (jsstring * json) :=
  filter (fun kv => negb (str_eqb (fst kv) (lit "__proto__"))) fields.

(** [clone[k]], for a name [k] that neither [Object.prototype] nor
    [Array.prototype] has: an own property of the copy, or else an own
    property of the object that was made its prototype. *)
Definition clone_get (fields : list (jsstring * json)) (k : jsstring) : option json :=
  match field k (clone_own fields) with
  | Some v => Some v
  | None =>
      match field (lit "__proto__") fields with
      | Some (JObject inherited) => field k inherited
      | _ => None
      end
  end.

(** [textEstimationSchema.validate(body)] for a body that is an object
    or an array: the first error, or the validated value of [dish].  The
    key of the schema is read from the copy and validated first; the
    own keys of the copy that the schema does not have come after it. *)
Definition textEstimationSchema (body : json) : Detail + jsstring :=
  match body with
  | JObject fields =>
      match Joi_string_required dish_rules (clone_get fields (lit "dish")) with
      | Some c => inl {| path := lit "dish"; reason := c |}
      | None =>
          match filter (fun k => negb (str_eqb k (lit "dish")))
                       (List.map fst (clone_own fields)) with
          | k :: _ => inl {| path := k; reason := object_unknown |}
          | [] =>
              match clone_get fields (lit "dish") with
              | Some (JString value) => inr value
              | _ => inl {| path := lit "dish"; reason := any_required |}
              end
          end
      end
  | _ => inl {| path := []; reason := object_base |}
  end.

(** The argument [req.body.dish?.substring(0, 50)] of the warning that
    is logged when the schema reports an error: [dish] is read from the
    body itself; when it is there, is not [null] and is no string, it
    has no function [substring], and the call throws a [TypeError]. *)
Definition logged_dish_throws (body : json) : bool :=
  match body with
  | JObject fields =>
      match field (lit "dish") fields with
      | None | Some JNull | Some (JString _) => false
      | Some _ => true
      end
  | _ => false
  end.

(** The request is its body here; on success the body is replaced. *)
Definition validateTextEstimation (body : option json) : outcome json :=
  match body with
  | None => throw BodyNotObject NoDetails
  | Some b =>
      if falsy_body body || negb (typeof_object b)
      then throw BodyNotObject NoDetails
      else if (10000 <? N.of_nat (stringify_length b))%N
      then throw BodyTooLarge NoDetails
      else if (10 <? key_count b)%nat
      then throw TooManyProperties NoDetails
      else
        match textEstimationSchema b with
        | inl detail =>
            if logged_dish_throws b then next_TypeError
            else throw InvalidRequestData (JoiDetails [detail])
        | inr value => next (JObject [(lit "dish", JString (sanitizeTextInput value))])
        end
  end.

(** *** The upload route *)

(** [req.file] as multer leaves it. *)
Record File : Type :=
  { buffer : option (list Byte.byte);
    mimetype : jsstring;
    size : N;
    originalname : option jsstring }.

Definition allowedTypes : list jsstring :=
  List.map lit ["image/jpeg"; "image/jpg"; "image/png"; "image/webp"]%string.

Definition suspiciousFilenames : list pattern :=
  List.map (fun ext => ci ext ++ [Eos])
    [".exe"; ".bat"; ".cmd"; ".scr"; ".pif"; ".com"; ".jar"; ".php";
     ".jsp"; ".asp"; ".js"; ".vbs"; ".sh"; ".py"]%string.

Definition imageHeaders : list (jsstring * list Byte.byte) :=
  [ (lit "image/jpeg", [Byte.xff; Byte.xd8; Byte.xff]);
    (lit "image/png", [Byte.x89; Byte.x50; Byte.x4e; Byte.x47]);
    (lit "image/webp", [Byte.x52; Byte.x49; Byte.x46; Byte.x46]) ].

(** [header.every((byte, index) => fileHeader[index] === byte)], from
    [index] on. *)
Fixpoint every_from (index : nat) (fileHeader header : list Byte.byte) : bool :=
  match header with
  | [] => true
  | byte :: rest =>
      match nth_error fileHeader index with
      | Some b => Byte.eqb b byte && every_from (S index) fileHeader rest
      | None => false
      end
  end.

Definition isValidHeader (mimetype : jsstring) (buf : list Byte.byte) : bool :=
  let fileHeader := firstn 4 buf in
  existsb (fun entry =>
             if str_eqb (fst entry) mimetype
             then every_from 0 fileHeader (snd entry)
             else false)
          imageHeaders.

(** A filename that is present and not the empty string. *)
Definition filename (file : File) : option jsstring :=
  match originalname file with
  | Some (c :: t) => Some (c :: t)
  | _ => None
  end.

(** [maxFileSizeMB] is [config.upload.maxFileSizeMB], a positive number
    read from the environment (10 when it is not set). *)
Definition validateImageUpload (maxFileSizeMB : Q) (file : option File) : outcome unit :=
  match file with
  | None => throw NoImageFile NoDetails
  | Some file =>
      if negb (existsb (str_eqb (mimetype file)) allowedTypes)
      then throw InvalidFileType (Received (mimetype file))
      else
        let maxSizeBytes := (maxFileSizeMB * 1024 * 1024)%Q in
        if negb (Qle_bool (inject_Z (Z.of_N (size file))) maxSizeBytes)
        then throw FileTooLarge
               (Sizes (ndiv (Math_round
                               (nmul (Fin (inject_Z (Z.of_N (size file)) / (1024 * 1024))%Q)
                                     (Fin 100))) 100)
                      (Fin maxFileSizeMB))
        else
          match buffer file with
          | None => throw EmptyFile NoDetails
          | Some [] => throw EmptyFile NoDetails
          | Some buf =>
              if match filename file with
                 | Some n => (255 <? List.length n)%nat
                 | None => false
                 end
              then throw FilenameTooLong NoDetails
              else if match filename file with
                      | Some n => existsb (fun pat => test pat n) suspiciousFilenames
                      | None => false
                      end
              then throw InvalidExtension NoDetails
              else if (List.length buf <? 100)%nat
              then throw FileTooSmall NoDetails
              else if negb (isValidHeader (mimetype file) buf)
              then throw HeaderMismatch NoDetails
              else next tt
          end
  end.

End Validation.

(* ================================================================== *)
(** ** middleware/auth *)
(* ================================================================== *)

Module Auth.

(** [s.replace(w, r)] with a string pattern: the first occurrence. *)
Fixpoint replace_first (w r s : jsstring) : jsstring :=
  match strip_prefix w s with
  | Some rest => r ++ rest
  | None =>
      match s with
      | [] => []
      | c :: t => c :: replace_first w r t
      end
  end.

(** A value of the query string: a string, or an array or object. *)
Inductive query_value : Type :=
| QString (s : jsstring)
| QOther.

(** What the middleware reads of a request. *)
Record Request : Type :=
  { x_api_key : option jsstring;
    authorization : option jsstring;
    query_api_key : option query_value }.

(** [req.auth]. *)
Record AuthInfo : Type :=
  { apiKey : jsstring; userId : jsstring; isValid : bool }.

(** The message of an [AuthenticationError]. *)
Inductive AuthenticationError : Type :=
| KeyRequired          (* API key is required *)
| InvalidKeyFormat     (* Invalid API key format *)
| InvalidKeyCharacters (* Invalid API key characters *)
| InvalidKey.          (* Invalid API key *)

Inductive auth_outcome : Type :=
| authenticated (auth : AuthInfo)
| auth_err (err : AuthenticationError).

(** [[a-zA-Z0-9\-_]]. *)
Definition key_char (c : N) : bool :=
  is_lower c || is_upper c || is_digit c || (c =? 45)%N || (c =? 95)%N.

(** A string that is present and truthy. *)
Definition truthy_string (o : option jsstring) : option jsstring :=
  match o with
  | Some (c :: t) => Some (c :: t)
  | _ => None
  end.

Definition configured_keys : list jsstring :=
  List.map lit ["demo-key-1"; "test-key-2"; "foodprint-api-key"]%string.

Section WithSecret.

(** [generateApiKeyHash]: the HMAC-SHA256 of the key under
    [config.auth.apiKeySecret], in hexadecimal. *)
Variable generateApiKeyHash : jsstring -> jsstring.

Definition VALID_API_KEYS : list jsstring :=
  List.map generateApiKeyHash configured_keys.

Definition has (set : list jsstring) (x : jsstring) : bool :=
  existsb (str_eqb x) set.

Definition bearer (req : Request) : option jsstring :=
  option_map (replace_first (lit "Bearer ") []) (authorization req).

Definition grant (apiKey hashedApiKey : jsstring) : AuthInfo :=
  {| apiKey := apiKey;
     userId := lit "user_" ++ firstn 8 hashedApiKey;
     isValid := true |}.

(** The key of a request: the first truthy one of the header
    [X-API-Key], the header [Authorization] without [Bearer ], and the
    parameter [api_key], which is taken as it is when it comes last. *)
Definition requested_key (req : Request) : option query_value :=
  match truthy_string (x_api_key req) with
  | Some k => Some (QString k)
  | None =>
      match truthy_string (bearer req) with
      | Some k => Some (QString k)
      | None => query_api_key req
      end
  end.

Definition authenticateApiKey (req : Request) : auth_outcome :=
  match requested_key req with
  | None => auth_err KeyRequired
  | Some (QString []) => auth_err KeyRequired
  | Some QOther => auth_err InvalidKeyFormat
  | Some (QString apiKey) =>
      if (List.length apiKey <? 8) || (128 <? List.length apiKey)
      then auth_err InvalidKeyFormat
      else
        let sanitizedApiKey := filter key_char apiKey in
        if negb (str_eqb sanitizedApiKey apiKey)
        then auth_err InvalidKeyCharacters
        else
          let hashedApiKey := generateApiKeyHash apiKey in
          if negb (has VALID_API_KEYS hashedApiKey)
          then auth_err InvalidKey
          else authenticated (grant apiKey hashedApiKey)
  end.

(** [optionalAuth] always goes on; the result is [req.auth]. *)
Definition optionalAuth (req : Request) : option AuthInfo :=
  let apiKey :=
    match truthy_string (x_api_key req) with
    | Some k => Some k
    | None => bearer req
    end in
  match truthy_string apiKey with
  | Some apiKey =>
      if (8 <=? List.length apiKey)
      then
        let sanitizedApiKey := filter key_char apiKey in
        if str_eqb sanitizedApiKey apiKey
        then
          let hashedApiKey := generateApiKeyHash apiKey in
          if has VALID_API_KEYS hashedApiKey
          then Some (grant apiKey hashedApiKey)
          else None
        else None
      else None
  | None => None
  end.

End WithSecret.

End Auth.

Import Constants Helpers CarbonService Validation.

(* ================================================================== *)
(** ** Auxiliary definitions for the statements *)
(* ================================================================== *)

(** The maximal run of word characters at the front of a string. *)
Fixpoint wordrun (s : jsstring) : jsstring :=
  match s with
  | [] => []
  | c :: t => if is_word c then c :: wordrun t else []
  end.

(** No match of the qualifier pattern starts anywhere in [s], read
    after a code unit whose class is [prev_word]. *)
Fixpoint quiet (prev_word : bool) (s : jsstring) : bool :=
  match s with
  | [] => true
  | c :: t =>
      match match_qualifier prev_word s with
      | Some _ => false
      | None => quiet (is_word c) t
      end
  end.

(** The leading run of word characters is one of the qualifiers. *)
Definition qualifier_run (s : jsstring) : bool :=
  existsb (str_eqb (wordrun s)) qualifiers.

(** The keys of [database] that the substring rule retains for a
    normalized name, in the order of the table. *)
Definition partialMatches (normalized : jsstring) (database : table) : list jsstring :=
  filter (partial_match normalized) (keys database).

(** The sum of a list of numbers, as mathematics has it. *)
Definition sum_of (xs : list number) : number := fold_right nadd (Fin 0) xs.

Definition same_numberb (a b : number) : bool :=
  match a, b with
  | Fin x, Fin y => Qeq_bool x y
  | NaN, NaN => true
  | _, _ => false
  end.

(** The body [{dish: s}]. *)
Definition dish_body (s : jsstring) : json := JObject [(lit "dish", JString s)].

(** The rejection that carries one Joi error on [dish]. *)
Definition dish_rejected (c : code) : outcome json :=
  next_err {| message := InvalidRequestData;
              details := JoiDetails [{| path := lit "dish"; reason := c |}] |}.

(** [header] is at the front of [buf]. *)
Fixpoint starts_with_bytes (header buf : list Byte.byte) : bool :=
  match header, buf with
  | [], _ => true
  | h :: header', b :: buf' => Byte.eqb b h && starts_with_bytes header' buf'
  | _ :: _, [] => false
  end.

(** The upload gets as far as the check of the signature: it passes
    the checks of presence, type, size, buffer, filename and minimum
    length, in the order of the middleware. *)
Definition reaches_signature_check
    (maxFileSizeMB : Q) (file : File) (buf : list Byte.byte) : Prop :=
  existsb (str_eqb (mimetype file)) allowedTypes = true
  /\ Qle_bool (inject_Z (Z.of_N (size file))) (maxFileSizeMB * 1024 * 1024) = true
  /\ buffer file = Some buf
  /\ match filename file with
     | Some n =>
         List.length n <= 255
         /\ existsb (fun pat => test pat n) suspiciousFilenames = false
     | None => True
     end
  /\ 100 <= List.length buf.

(** A file of JPEG bytes with a name and a declared type. *)
Definition jpeg_upload (declared : string) : File :=
  {| buffer := Some ([Byte.xff; Byte.xd8; Byte.xff; Byte.xe0] ++ repeat Byte.x00 1000);
     mimetype := lit declared;
     size := 1004;
     originalname := Some (lit "test.jpg") |}.

(** An ingredient whose name is made of qualifiers and punctuation. *)
Definition qualifiers_only : RawIngredient :=
  {| raw_name := lit "Fresh, organic!"; raw_confidence := Some (Fin 0.9) |}.

(** 201 code units, the last three of them spaces. *)
Definition padded_dish : jsstring := List.concat (repeat (lit "ab") 99) ++ lit "   ".

(** Two whitespace code units side by side somewhere in [s]. *)
Fixpoint adjacent_spaces (s : jsstring) : bool :=
  match s with
  | [] => false
  | c :: t =>
      (is_space c && match t with [] => false | d :: _ => is_space d end)
      || adjacent_spaces t
  end.

(** The class of the code unit before the read position once the
    scan has gone over [a], starting after a code unit of class [p]. *)
Definition class_after (p : bool) (a : jsstring) : bool :=
  fold_left (fun _ c => is_word c) a p.

(** A pattern with no [$] in it. *)
Definition eos_free (pat : pattern) : bool :=
  forallb (fun i => match i with Eos => false | _ => true end) pat.

(** The suspicious patterns with a character in them that the
    character class of [dish] does not have. *)
Definition unreachable_patterns : list pattern :=
  [ ci "<script"; ci "javascript:"; ci "onload="; ci "onerror=";
    cs "../"; ci "..\/g, /etc/passwd"; ci "__proto__" ].

(** The extensions of [suspiciousFilenames]. *)
Definition denied_extensions : list string :=
  [".exe"; ".bat"; ".cmd"; ".scr"; ".pif"; ".com"; ".jar"; ".php";
   ".jsp"; ".asp"; ".js"; ".vbs"; ".sh"; ".py"]%string.



(** A number of a whole count of hundredths. *)
Definition hundredths (a : number) : Prop :=
  exists z : Z, same_number a (Fin (z # 100)).

(** A number that is finite and not negative. *)
Definition nonnegative (a : number) : Prop :=
  match a with
  | Fin q => (0 <= q)%Q
  | NaN => False
  end.

(** A confidence as the extraction reports it: absent, or in [[0, 1]]. *)
Definition unit_confidence (c : option number) : Prop :=
  match c with
  | None => True
  | Some (Fin q) => (0 <= q <= 1)%Q
  | Some NaN => False
  end.

(** A JPEG file under the name of an executable. *)
Definition renamed_executable : File :=
  {| buffer := Some ([Byte.xff; Byte.xd8; Byte.xff; Byte.xe0] ++ repeat Byte.x00 200);
     mimetype := lit "image/jpeg";
     size := 204;
     originalname := Some (lit "malware.jpg" ++ lit ".EXE") |}.


(** A body that has its [dish] in the object under [__proto__]. *)
Definition inherited_dish_body : json :=
  JObject [(lit "__proto__", JObject [(lit "dish", JString (lit "  Pad Thai "))])].

(** A body with 10000 code units under [__proto__]. *)
Definition long_proto_body : json :=
  JObject [(lit "__proto__", JString (repeat 65%N 10000));
           (lit "dish", JString (lit "Pad Thai"))].

(** A request with a key in the [X-API-Key] header only. *)
Definition key_in_header (k : jsstring) : Auth.Request :=
  {| Auth.x_api_key := Some k; Auth.authorization := None;
     Auth.query_api_key := None |}.

(** The alphabet of a normalized name: [[a-z0-9 ]]. *)
Definition plain (c : N) : bool := is_lower c || is_digit c || (c =? 32)%N.

(* ================================================================== *)
(** ** Code units and string equality *)
(* ================================================================== *)

Ltac unfold_classes :=
  unfold plain, kept, is_word, is_space, is_lower, is_upper, is_digit,
         is_line_terminator, in_range, space in *.

Ltac to_arith :=
  repeat match goal with
         | H : _ || _ = true |- _ => apply orb_true_iff in H
         | H : _ && _ = true |- _ => apply andb_true_iff in H
         | H : _ || _ = false |- _ => apply orb_false_iff in H
         | H : _ && _ = false |- _ => apply andb_false_iff in H
         | H : _ /\ _ |- _ => destruct H
         | H : _ \/ _ |- _ => destruct H
         | H : (_ =? _)%N = true |- _ => apply N.eqb_eq in H
         | H : (_ =? _)%N = false |- _ => apply N.eqb_neq in H
         | H : (_ <=? _)%N = true |- _ => apply N.leb_le in H
         | H : (_ <=? _)%N = false |- _ => apply N.leb_gt in H
         end.

(** Decides an implication between character classes by cases on the
    class in the goal. *)
Ltac class_lia :=
  match goal with
  | |- ?b = false => destruct b eqn:?; [exfalso | reflexivity]
  | |- ?b = true => destruct b eqn:?; [reflexivity | exfalso]
  end;
  unfold_classes; to_arith; lia.

(** Closed statements, a conjunction of them at most, by evaluation. *)
Ltac by_computation :=
  intros; repeat match goal with |- _ /\ _ => split end; vm_compute; reflexivity.

Lemma str_eqb_eq (a b : jsstring) : str_eqb a b = true <-> a = b.
Proof.
  revert b; induction a as [|x a IH]; intros [|y b]; simpl;
    try (split; [discriminate | discriminate]); [tauto|].
  rewrite andb_true_iff, N.eqb_eq, IH.
  split; [intros [-> ->]; reflexivity | intros E; inversion E; auto].
Qed.

Lemma str_eqb_refl (a : jsstring) : str_eqb a a = true.
Proof. apply str_eqb_eq; reflexivity. Qed.

Lemma str_eqb_neq (a b : jsstring) : str_eqb a b = false <-> a <> b.
Proof.
  rewrite <- str_eqb_eq. destruct (str_eqb a b); split; congruence.
Qed.

Lemma space_not_word c : is_space c = true -> is_word c = false.
Proof. intros H; class_lia. Qed.

Lemma plain_kept c : plain c = true -> kept c = true.
Proof. intros H; class_lia. Qed.

Lemma plain_not_upper c : plain c = true -> is_upper c = false.
Proof. intros H; class_lia. Qed.

Lemma plain_space c : plain c = true -> is_space c = true -> c = space.
Proof. intros H1 H2; unfold_classes; to_arith; lia. Qed.

Lemma plain_lower_unit c : plain c = true -> lower_unit c = [c].
Proof.
  intros H. unfold lower_unit. rewrite (plain_not_upper _ H).
  assert (E1 : (c =? 0x130)%N = false) by class_lia.
  assert (E2 : (c =? 0x212A)%N = false) by class_lia.
  rewrite E1, E2. reflexivity.
Qed.

Lemma kept_space_or_plain c : kept c = true -> is_space c = false -> plain c = true.
Proof. intros H1 H2; class_lia. Qed.

(* ================================================================== *)
(** ** The normalizer *)
(* ================================================================== *)

Section Trim.

Variable P : N -> bool.

Lemma trimStart_forallb s : forallb P s = true -> forallb P (trimStart s) = true.
Proof.
  induction s as [|c t IH]; simpl; auto.
  intros H. destruct (is_space c); auto.
  apply andb_true_iff in H. tauto.
Qed.

Lemma trimEnd_forallb s : forallb P s = true -> forallb P (trimEnd s) = true.
Proof.
  induction s as [|c t IH]; auto.
  intros H. change (forallb P (c :: t)) with (P c && forallb P t) in H.
  apply andb_true_iff in H. destruct H as [Hc Ht].
  cbn [trimEnd]. destruct (forallb is_space (c :: t)); auto.
  cbn [forallb]. rewrite Hc. auto.
Qed.

Lemma trim_forallb s : forallb P s = true -> forallb P (trim s) = true.
Proof. intros H. apply trimEnd_forallb, trimStart_forallb, H. Qed.

End Trim.

Lemma trimEnd_nil_iff s : trimEnd s = [] <-> forallb is_space s = true.
Proof.
  destruct s as [|c t]; [simpl; tauto|].
  cbn [trimEnd]. destruct (forallb is_space (c :: t)); split; congruence.
Qed.

Lemma trimEnd_idem s : trimEnd (trimEnd s) = trimEnd s.
Proof.
  induction s as [|c t IH]; auto.
  cbn [trimEnd]. destruct (forallb is_space (c :: t)) eqn:E; auto.
  cbn [trimEnd]. rewrite IH.
  destruct (forallb is_space (c :: trimEnd t)) eqn:F; auto.
  exfalso. cbn [forallb] in E, F. apply andb_true_iff in F. destruct F as [Fc Ft].
  apply trimEnd_nil_iff in Ft. rewrite IH in Ft. apply trimEnd_nil_iff in Ft.
  rewrite Fc, Ft in E. discriminate.
Qed.

Lemma trimStart_head s :
  match trimStart s with [] => True | c :: _ => is_space c = false end.
Proof.
  induction s as [|c t IH]; simpl; auto.
  destruct (is_space c) eqn:E; auto.
Qed.

Lemma trimStart_fixed s :
  match s with [] => True | c :: _ => is_space c = false end -> trimStart s = s.
Proof. destruct s as [|c t]; simpl; auto. intros ->. reflexivity. Qed.

Lemma trimEnd_head s :
  match s with [] => True | c :: _ => is_space c = false end ->
  match trimEnd s with [] => True | c :: _ => is_space c = false end.
Proof.
  destruct s as [|c t]; auto. intros H.
  cbn [trimEnd]. destruct (forallb is_space (c :: t)); auto.
Qed.

(** [trim] is idempotent. *)
Lemma trim_idem s : trim (trim s) = trim s.
Proof.
  unfold trim.
  rewrite (trimStart_fixed (trimEnd (trimStart s))).
  - apply trimEnd_idem.
  - apply trimEnd_head, trimStart_head.
Qed.

Lemma toLowerCase_plain s : forallb plain s = true -> toLowerCase s = s.
Proof.
  induction s as [|c t IH]; auto. intros H.
  cbn [forallb] in H. apply andb_true_iff in H. destruct H as [Hc Ht].
  unfold toLowerCase in *. cbn [flat_map]. rewrite (plain_lower_unit _ Hc), IH; auto.
Qed.

Lemma strip_other_plain s : forallb plain s = true -> strip_other s = s.
Proof.
  induction s as [|c t IH]; auto. intros H.
  cbn [forallb] in H. apply andb_true_iff in H. destruct H as [Hc Ht].
  unfold strip_other in *. cbn [filter]. rewrite (plain_kept _ Hc), IH; auto.
Qed.

Lemma strip_other_kept s : forallb kept (strip_other s) = true.
Proof.
  unfold strip_other. apply forallb_forall. intros c Hc.
  apply filter_In in Hc. tauto.
Qed.

Lemma collapse_ws_plain s b : forallb kept s = true -> forallb plain (collapse_ws b s) = true.
Proof.
  revert b; induction s as [|c t IH]; intros b H; auto.
  cbn [forallb] in H. apply andb_true_iff in H. destruct H as [Hc Ht].
  cbn [collapse_ws]. destruct (is_space c) eqn:E.
  - destruct b; cbn [forallb]; rewrite ?IH; auto.
  - cbn [forallb]. rewrite (kept_space_or_plain _ Hc E), IH; auto.
Qed.

(** *** The qualifier pattern *)

Lemma strip_prefix_app q s rest : strip_prefix q s = Some rest -> s = q ++ rest.
Proof.
  revert s; induction q as [|a q IH]; intros s H.
  - simpl in H. injection H as ->. reflexivity.
  - destruct s as [|b s]; [discriminate|]. simpl in H.
    destruct (a =? b)%N eqn:E; [|discriminate].
    apply N.eqb_eq in E. subst b. simpl. f_equal. auto.
Qed.

Lemma first_alt_some alts s rest :
  first_alt alts s = Some rest ->
  exists q, In q alts /\ s = q ++ rest /\ at_boundary true rest = true.
Proof.
  induction alts as [|q alts IH]; [discriminate|].
  cbn [first_alt]. destruct (strip_prefix q s) as [r|] eqn:E.
  - destruct (at_boundary true r) eqn:B.
    + intros H; injection H as <-. exists q.
      repeat split; [left; reflexivity | apply strip_prefix_app; assumption | assumption].
    + intros H. destruct (IH H) as (q' & ? & ? & ?).
      exists q'. repeat split; [right; assumption | assumption | assumption].
  - intros H. destruct (IH H) as (q' & ? & ? & ?).
    exists q'. repeat split; [right; assumption | assumption | assumption].
Qed.

Lemma qualifiers_words :
  forallb (fun q => forallb is_word q && (0 <? List.length q)) qualifiers = true.
Proof. reflexivity. Qed.

Lemma qualifier_facts q :
  In q qualifiers -> forallb is_word q = true /\ 0 < List.length q.
Proof.
  intros H. pose proof qualifiers_words as W.
  rewrite forallb_forall in W. specialize (W q H).
  apply andb_true_iff in W. destruct W as [W1 W2].
  apply Nat.ltb_lt in W2. auto.
Qed.

(** A match takes at least one code unit off the input. *)
Lemma match_qualifier_shorter p s rest :
  match_qualifier p s = Some rest -> List.length rest < List.length s.
Proof.
  unfold match_qualifier. destruct (at_boundary p s); [|discriminate].
  intros H. apply first_alt_some in H. destruct H as (q & Hq & -> & _).
  apply qualifier_facts in Hq. rewrite length_app. lia.
Qed.

Lemma match_qualifier_suffix p s rest :
  match_qualifier p s = Some rest ->
  exists q, s = q ++ rest /\ at_boundary true rest = true.
Proof.
  unfold match_qualifier. destruct (at_boundary p s); [|discriminate].
  intros H. apply first_alt_some in H. destruct H as (q & _ & ? & ?). eauto.
Qed.

(** The scan does not depend on the fuel once there is enough of it. *)
Lemma remove_from_fuel f f' p s :
  List.length s <= f -> List.length s <= f' -> remove_from f p s = remove_from f' p s.
Proof.
  revert f' p s; induction f as [|f IH]; intros f' p s Hf Hf'.
  - destruct s; [destruct f'; reflexivity | simpl in Hf; lia].
  - destruct s as [|c t]; [destruct f'; reflexivity|].
    destruct f' as [|f']; [simpl in Hf'; lia|].
    cbn [remove_from]. simpl in Hf, Hf'.
    destruct (match_qualifier p (c :: t)) as [rest|] eqn:E.
    + apply match_qualifier_shorter in E. simpl in E. apply IH; lia.
    + f_equal. apply IH; lia.
Qed.

(** The equation of the scan, free of fuel. *)
Lemma remove_from_step f p c t :
  List.length (c :: t) <= f ->
  remove_from f p (c :: t) =
  match match_qualifier p (c :: t) with
  | Some rest => remove_from (List.length rest) true rest
  | None => c :: remove_from (List.length t) (is_word c) t
  end.
Proof.
  intros Hf. destruct f as [|f]; [simpl in Hf; lia|].
  cbn [remove_from]. simpl in Hf.
  destruct (match_qualifier p (c :: t)) as [rest|] eqn:E.
  - apply match_qualifier_shorter in E. simpl in E. apply remove_from_fuel; lia.
  - f_equal. apply remove_from_fuel; lia.
Qed.

Lemma remove_from_forallb (P : N -> bool) f p s :
  forallb P s = true -> forallb P (remove_from f p s) = true.
Proof.
  revert p s; induction f as [|f IH]; intros p s H.
  - destruct s; auto.
  - destruct s as [|c t]; auto. cbn [remove_from].
    destruct (match_qualifier p (c :: t)) as [rest|] eqn:E.
    + apply match_qualifier_suffix in E. destruct E as (q & E & _).
      rewrite E, forallb_app in H. apply andb_true_iff in H. apply IH. tauto.
    + cbn [forallb] in *. apply andb_true_iff in H. destruct H as [Hc Ht].
      rewrite Hc, IH; auto.
Qed.

(** A normalized name is made of lower-case letters, digits and spaces. *)
Lemma normalize_plain x : forallb plain (normalizeIngredientName x) = true.
Proof.
  unfold normalizeIngredientName, remove_qualifiers.
  apply trim_forallb, remove_from_forallb, collapse_ws_plain, strip_other_kept.
Qed.

(** Whether an alternative, followed by [\b], is at the front of [s]
    is a question about the leading run of word characters only. *)
Lemma alternative_is_wordrun q s :
  forallb is_word q = true ->
  match strip_prefix q s with
  | Some rest => at_boundary true rest
  | None => false
  end = str_eqb (wordrun s) q.
Proof.
  revert s; induction q as [|a q IH]; intros s Hq.
  - cbn [strip_prefix]. destruct s as [|c t]; [reflexivity|].
    unfold at_boundary. cbn [wordrun]. destruct (is_word c); reflexivity.
  - cbn [forallb] in Hq. apply andb_true_iff in Hq. destruct Hq as [Ha Hq].
    destruct s as [|b s]; [reflexivity|].
    cbn [strip_prefix wordrun]. destruct (a =? b)%N eqn:E.
    + apply N.eqb_eq in E. subst b. rewrite Ha. cbn [str_eqb].
      rewrite N.eqb_refl, IH; auto.
    + destruct (is_word b); [|reflexivity]. cbn [str_eqb].
      rewrite N.eqb_sym, E. reflexivity.
Qed.

Lemma first_alt_none_iff alts s :
  (forall q, In q alts -> forallb is_word q = true) ->
  (first_alt alts s = None <-> existsb (str_eqb (wordrun s)) alts = false).
Proof.
  induction alts as [|q alts IH]; intros Hw; [simpl; tauto|].
  cbn [first_alt existsb].
  pose proof (alternative_is_wordrun q s (Hw q (or_introl eq_refl))) as A.
  assert (IH' := IH (fun q' H => Hw q' (or_intror H))).
  destruct (strip_prefix q s) as [rest|].
  - destruct (at_boundary true rest); rewrite <- A; simpl; [split; discriminate | exact IH'].
  - rewrite <- A. simpl. exact IH'.
Qed.

(** The pattern matches at the front of [s] exactly when the previous
    code unit is not a word character and the leading run of word
    characters is one of the qualifiers. *)
Lemma match_qualifier_none_iff p s :
  match_qualifier p s = None <-> p || negb (qualifier_run s) = true.
Proof.
  assert (W : forall q, In q qualifiers -> forallb is_word q = true)
    by (intros q H; apply qualifier_facts; assumption).
  unfold match_qualifier, qualifier_run.
  pose proof (first_alt_none_iff qualifiers s W) as F.
  destruct p; cbn [orb].
  - unfold at_boundary. destruct s as [|c t]; cbn [xorb negb].
    + split; auto.
    + destruct (is_word c) eqn:E; cbn [negb]; [tauto|].
      split; auto. intros _. apply F. cbn [wordrun]. rewrite E. reflexivity.
  - rewrite negb_true_iff. unfold at_boundary. destruct s as [|c t]; cbn [xorb].
    + split; auto.
    + destruct (is_word c) eqn:E; [exact F|].
      split; auto. intros _. cbn [wordrun]. rewrite E. reflexivity.
Qed.

Lemma match_qualifier_wordrun p s s' :
  wordrun s = wordrun s' ->
  match_qualifier p s = None -> match_qualifier p s' = None.
Proof.
  intros E. rewrite !match_qualifier_none_iff. unfold qualifier_run.
  rewrite E. auto.
Qed.

Lemma match_qualifier_word_before s : match_qualifier true s = None.
Proof. apply match_qualifier_none_iff. reflexivity. Qed.

Lemma match_qualifier_not_word p c t :
  is_word c = false -> match_qualifier p (c :: t) = None.
Proof.
  intros E. apply match_qualifier_none_iff. unfold qualifier_run.
  cbn [wordrun]. rewrite E. destruct p; reflexivity.
Qed.

(** Inside a word the scan copies: the leading run survives. *)
Lemma wordrun_remove_from f t : wordrun (remove_from f true t) = wordrun t.
Proof.
  revert t; induction f as [|f IH]; intros t.
  - destruct t; reflexivity.
  - destruct t as [|d t]; [reflexivity|].
    cbn [remove_from]. rewrite match_qualifier_word_before.
    cbn [wordrun]. destruct (is_word d) eqn:E; [|reflexivity].
    rewrite IH. reflexivity.
Qed.

Lemma wordrun_trimEnd s : wordrun (trimEnd s) = wordrun s.
Proof.
  induction s as [|c t IH]; [reflexivity|].
  cbn [trimEnd]. destruct (forallb is_space (c :: t)) eqn:E.
  - cbn [forallb] in E. apply andb_true_iff in E. destruct E as [E _].
    cbn [wordrun]. rewrite (space_not_word _ E). reflexivity.
  - cbn [wordrun]. rewrite IH. reflexivity.
Qed.

Lemma wordrun_cons c t t' : wordrun t = wordrun t' -> wordrun (c :: t) = wordrun (c :: t').
Proof. intros E. cbn [wordrun]. rewrite E. reflexivity. Qed.

(** A string in which the pattern matches nowhere is left alone. *)
Lemma remove_from_quiet f p s : quiet p s = true -> remove_from f p s = s.
Proof.
  revert p s; induction f as [|f IH]; intros p s H.
  - destruct s; reflexivity.
  - destruct s as [|c t]; [reflexivity|].
    cbn [remove_from]. cbn [quiet] in H.
    destruct (match_qualifier p (c :: t)); [discriminate|].
    rewrite IH; auto.
Qed.

(** What the scan leaves has no match left in it.  While the scan is
    just behind a match the code unit before the read position is a
    letter of the match, the one before the write position is not a
    word character, and the next code unit read is not one either. *)
Lemma quiet_remove_from f s p_in p_out :
  List.length s <= f ->
  p_in = p_out \/
  (p_in = true /\ p_out = false /\ at_boundary true s = true) ->
  quiet p_out (remove_from f p_in s) = true.
Proof.
  revert s p_in p_out; induction f as [|f IH]; intros s p_in p_out Hf Hp.
  - destruct s; [reflexivity | simpl in Hf; lia].
  - destruct s as [|c t]; [reflexivity|].
    cbn [remove_from]. simpl in Hf.
    destruct (match_qualifier p_in (c :: t)) as [rest|] eqn:E.
    + assert (p_in = false).
      { destruct p_in; auto. rewrite match_qualifier_word_before in E. discriminate. }
      assert (p_out = false) by (destruct Hp as [<- | (? & _)]; congruence).
      subst. pose proof (match_qualifier_shorter _ _ E) as L. simpl in L.
      apply match_qualifier_suffix in E. destruct E as (q & _ & B).
      apply IH; [lia | right; auto].
    + cbn [quiet].
      assert (M : match_qualifier p_out (c :: remove_from f (is_word c) t) = None).
      { destruct Hp as [<- | (-> & -> & B)].
        - apply (match_qualifier_wordrun p_in (c :: t)); auto.
          cbn [wordrun]. destruct (is_word c); [|reflexivity].
          rewrite wordrun_remove_from. reflexivity.
        - apply match_qualifier_not_word.
          unfold at_boundary in B. destruct (is_word c); [discriminate | reflexivity]. }
      rewrite M. apply IH; [lia | left; reflexivity].
Qed.

Lemma quiet_remove_qualifiers s : quiet false (remove_qualifiers s) = true.
Proof. apply quiet_remove_from; [apply Nat.le_refl | left; reflexivity]. Qed.

Lemma quiet_trimStart s : quiet false s = true -> quiet false (trimStart s) = true.
Proof.
  induction s as [|c t IH]; auto. intros H.
  cbn [trimStart]. destruct (is_space c) eqn:E; auto.
  apply IH. cbn [quiet] in H.
  destruct (match_qualifier false (c :: t)); [discriminate|].
  rewrite (space_not_word _ E) in H. exact H.
Qed.

Lemma quiet_trimEnd p s : quiet p s = true -> quiet p (trimEnd s) = true.
Proof.
  revert p; induction s as [|c t IH]; intros p H; auto.
  cbn [trimEnd]. destruct (forallb is_space (c :: t)); auto.
  cbn [quiet] in *.
  destruct (match_qualifier p (c :: t)) eqn:E; [discriminate|].
  rewrite (match_qualifier_wordrun p (c :: t) (c :: trimEnd t)); auto.
  apply wordrun_cons. symmetry. apply wordrun_trimEnd.
Qed.

(** No qualifier is left standing in a normalized name. *)
Lemma normalize_quiet x : quiet false (normalizeIngredientName x) = true.
Proof.
  unfold normalizeIngredientName, trim.
  apply quiet_trimEnd, quiet_trimStart, quiet_remove_qualifiers.
Qed.

Lemma normalize_trimmed x : trim (normalizeIngredientName x) = normalizeIngredientName x.
Proof. unfold normalizeIngredientName. apply trim_idem. Qed.

(** A second pass only collapses the runs of spaces that the removal of
    qualifiers left behind. *)
Lemma normalize_twice x :
  normalizeIngredientName (normalizeIngredientName x)
  = trim (remove_qualifiers (collapse_ws false (normalizeIngredientName x))).
Proof.
  unfold normalizeIngredientName at 1.
  rewrite (toLowerCase_plain _ (normalize_plain x)).
  rewrite (normalize_trimmed x).
  rewrite (strip_other_plain _ (normalize_plain x)). reflexivity.
Qed.

(** *** Collapsing whitespace *)

Lemma is_space_space : is_space space = true.
Proof. reflexivity. Qed.

Lemma wordrun_collapse_ws t : wordrun (collapse_ws false t) = wordrun t.
Proof.
  induction t as [|d t IH]; [reflexivity|].
  cbn [collapse_ws]. destruct (is_space d) eqn:E.
  - cbn [wordrun]. rewrite (space_not_word _ E), (space_not_word _ is_space_space).
    reflexivity.
  - cbn [wordrun]. rewrite IH. reflexivity.
Qed.

Lemma quiet_collapse_ws s b p :
  (b = true -> p = false) -> quiet p s = true -> quiet p (collapse_ws b s) = true.
Proof.
  revert b p; induction s as [|c t IH]; intros b p Hb H; auto.
  cbn [quiet] in H.
  destruct (match_qualifier p (c :: t)) eqn:M; [discriminate|].
  cbn [collapse_ws]. destruct (is_space c) eqn:E.
  - rewrite (space_not_word _ E) in H. destruct b.
    + rewrite (Hb eq_refl). apply IH; auto.
    + cbn [quiet].
      rewrite match_qualifier_not_word by (apply space_not_word, is_space_space).
      rewrite (space_not_word _ is_space_space). apply IH; auto.
  - cbn [quiet].
    rewrite (match_qualifier_wordrun p (c :: t) (c :: collapse_ws false t)); auto.
    + apply IH; auto. discriminate.
    + apply wordrun_cons. symmetry. apply wordrun_collapse_ws.
Qed.

Lemma forallb_space_collapse_ws s b :
  forallb is_space (collapse_ws b s) = forallb is_space s.
Proof.
  revert b; induction s as [|c t IH]; intros b; [reflexivity|].
  cbn [collapse_ws]. destruct (is_space c) eqn:E.
  - destruct b; cbn [forallb]; rewrite ?is_space_space, E, IH; reflexivity.
  - cbn [forallb]. rewrite E. reflexivity.
Qed.

Lemma trimEnd_fixed_cons c t :
  trimEnd (c :: t) = c :: t ->
  forallb is_space (c :: t) = false /\ trimEnd t = t.
Proof.
  cbn [trimEnd]. destruct (forallb is_space (c :: t)); [discriminate|].
  intros H. injection H as H. auto.
Qed.

Lemma trimEnd_collapse_ws s b :
  trimEnd s = s -> trimEnd (collapse_ws b s) = collapse_ws b s.
Proof.
  revert b; induction s as [|c t IH]; intros b H; [reflexivity|].
  apply trimEnd_fixed_cons in H. destruct H as [A T].
  cbn [collapse_ws]. destruct (is_space c) eqn:E.
  - cbn [forallb] in A. rewrite E in A. cbn [andb] in A. destruct b; auto.
    cbn [trimEnd forallb].
    rewrite forallb_space_collapse_ws, A, andb_false_r, IH; auto.
  - cbn [trimEnd forallb]. rewrite E. cbn [andb]. rewrite IH; auto.
Qed.

Lemma trim_fixed_parts s : trim s = s -> trimStart s = s /\ trimEnd s = s.
Proof.
  intros H.
  assert (S : trimStart s = s).
  { apply trimStart_fixed. rewrite <- H. apply trimEnd_head, trimStart_head. }
  split; auto. unfold trim in H. rewrite S in H. exact H.
Qed.

Lemma trim_collapse_ws s : trim s = s -> trim (collapse_ws false s) = collapse_ws false s.
Proof.
  intros H. apply trim_fixed_parts in H. destruct H as [S E].
  unfold trim. rewrite (trimStart_fixed (collapse_ws false s)).
  - apply trimEnd_collapse_ws, E.
  - destruct s as [|c t]; [exact I|]. cbn [trimStart] in S. cbn [collapse_ws].
    destruct (is_space c) eqn:C; auto.
    exfalso. pose proof (trimStart_head t) as Hd. rewrite S in Hd. congruence.
Qed.

Lemma collapse_ws_idem s b b' :
  (b = true -> b' = true) ->
  collapse_ws b (collapse_ws b' s) = collapse_ws b' s.
Proof.
  revert b b'; induction s as [|c t IH]; intros b b' Hb; [reflexivity|].
  cbn [collapse_ws]. destruct (is_space c) eqn:E.
  - destruct b'.
    + apply IH; auto.
    + destruct b; [specialize (Hb eq_refl); discriminate|].
      cbn [collapse_ws]. rewrite is_space_space. f_equal. apply IH; auto.
  - cbn [collapse_ws]. rewrite E. f_equal. apply IH. discriminate.
Qed.

(** On the alphabet of normalized names collapsing changes nothing
    exactly when no two spaces are side by side. *)
Lemma collapse_ws_fixed_iff s :
  forallb plain s = true ->
  (collapse_ws false s = s <-> adjacent_spaces s = false).
Proof.
  assert (G : forall s b, forallb plain s = true ->
            (collapse_ws b s = s <->
             (b && match s with [] => false | d :: _ => is_space d end = false
              /\ adjacent_spaces s = false))).
  { clear s. induction s as [|c t IH]; intros b H.
    - cbn. rewrite andb_false_r. tauto.
    - cbn [forallb] in H. apply andb_true_iff in H. destruct H as [Hc Ht].
      cbn [collapse_ws adjacent_spaces]. destruct (is_space c) eqn:E.
      + rewrite andb_true_r. cbn [andb]. destruct b.
        * split; [intros A | intros [A _]; discriminate].
          exfalso. assert (L : List.length (collapse_ws true t) = S (List.length t))
            by (rewrite A; reflexivity).
          assert (B : forall u b0, List.length (collapse_ws b0 u) <= List.length u).
          { induction u as [|x u IHu]; intros b0; cbn [collapse_ws]; auto.
            destruct (is_space x); [destruct b0|]; simpl;
              try apply le_n_S; try apply le_S; apply IHu. }
          specialize (B t true). lia.
        * rewrite (plain_space _ Hc E). split.
          -- intros A. injection A as A. apply (IH true Ht) in A.
             destruct A as [A1 A2]. cbn [andb] in A1. rewrite A1, A2. auto.
          -- intros [_ A]. apply orb_false_iff in A. destruct A as [A1 A2].
             f_equal. apply (IH true Ht). auto.
      + rewrite andb_false_r. cbn [andb orb]. split.
        * intros A. injection A as A. apply (IH false Ht) in A. tauto.
        * intros [_ A]. f_equal. apply (IH false Ht). auto. }
  intros H. rewrite (G s false H). cbn [andb]. tauto.
Qed.

(** *** Two and three passes *)

(** The second pass is a collapse of the spaces. *)
Lemma normalize_twice_collapse x :
  normalizeIngredientName (normalizeIngredientName x)
  = collapse_ws false (normalizeIngredientName x).
Proof.
  rewrite normalize_twice. unfold remove_qualifiers.
  rewrite remove_from_quiet.
  - apply trim_collapse_ws, normalize_trimmed.
  - apply quiet_collapse_ws; [discriminate | apply normalize_quiet].
Qed.

(** From the second pass on nothing changes any more. *)
Lemma normalize_stable x :
  normalizeIngredientName (normalizeIngredientName (normalizeIngredientName x))
  = normalizeIngredientName (normalizeIngredientName x).
Proof.
  rewrite (normalize_twice_collapse (normalizeIngredientName x)).
  rewrite (normalize_twice_collapse x).
  apply collapse_ws_idem. discriminate.
Qed.

(** C4 as stated fails: where a qualifier is removed from between two
    words its two spaces stay, and only a second pass collapses them. *)
Lemma normalize_not_idempotent :
  normalizeIngredientName (normalizeIngredientName (lit "rice fresh beans"))
  <> normalizeIngredientName (lit "rice fresh beans").
Proof. vm_compute. discriminate. Qed.

(** C4, amended: the normalizer is idempotent on every string whose
    normalized form has no two spaces side by side. *)
Theorem normalize_idempotent_single_spaced (x : jsstring) :
  adjacent_spaces (normalizeIngredientName x) = false ->
  normalizeIngredientName (normalizeIngredientName x) = normalizeIngredientName x.
Proof.
  intros H. rewrite normalize_twice_collapse.
  apply collapse_ws_fixed_iff; [apply normalize_plain | exact H].
Qed.

Lemma normalize_idempotent_single_spaced_witness :
  adjacent_spaces (normalizeIngredientName (lit "Fresh Organic RICE!")) = false
  /\ normalizeIngredientName (normalizeIngredientName (lit "Fresh Organic RICE!"))
     = normalizeIngredientName (lit "Fresh Organic RICE!").
Proof.
  split; [reflexivity | apply normalize_idempotent_single_spaced; reflexivity].
Defined.

(** The side condition is also necessary. *)
Lemma normalize_idempotent_iff (x : jsstring) :
  normalizeIngredientName (normalizeIngredientName x) = normalizeIngredientName x
  <-> adjacent_spaces (normalizeIngredientName x) = false.
Proof.
  rewrite normalize_twice_collapse.
  apply collapse_ws_fixed_iff, normalize_plain.
Qed.

(* ================================================================== *)
(** ** The matcher *)
(* ================================================================== *)

Lemma longer_cases a b :
  (List.length b < List.length a /\ longer a b = a)
  \/ (List.length a <= List.length b /\ longer a b = b).
Proof.
  unfold longer. destruct (List.length b <? List.length a) eqn:E.
  - apply Nat.ltb_lt in E. auto.
  - apply Nat.ltb_ge in E. auto.
Qed.

(** What [reduce] with [longer] returns: an element of the array that is
    as long as any, and strictly longer than whatever comes after it. *)
Lemma reduce_longer l a :
  exists before after,
    a :: l = before ++ fold_left longer l a :: after
    /\ (forall x, In x before -> List.length x <= List.length (fold_left longer l a))
    /\ (forall x, In x after -> List.length x < List.length (fold_left longer l a)).
Proof.
  revert a; induction l as [|b l IH]; intros a.
  - exists [], []. simpl. repeat split; intros x [].
  - cbn [fold_left]. destruct (IH (longer a b)) as (before & after & E & B & A).
    remember (fold_left longer l (longer a b)) as r eqn:R. clear R.
    destruct before as [|h before].
    + simpl in E. injection E as E1 E2. subst after.
      destruct (longer_cases a b) as [[L La] | [L Lb]].
      * exists [], (b :: l). rewrite <- E1, La in *.
        repeat split; [intros x [] | intros x [<- | Hx]; auto].
      * exists [a], l. rewrite <- E1, Lb in *.
        repeat split; [intros x [<- | []]; auto | auto].
    + simpl in E. injection E as E1 E2. subst h l.
      assert (M : List.length (longer a b) <= List.length r) by (apply B; left; reflexivity).
      exists (a :: b :: before), after.
      repeat split; auto.
      intros x [<- | [<- | Hx]].
      * destruct (longer_cases a b) as [[L La] | [L Lb]]; rewrite ?La, ?Lb in M; lia.
      * destruct (longer_cases a b) as [[L La] | [L Lb]]; rewrite ?La, ?Lb in M; lia.
      * apply B. right. exact Hx.
Qed.

Lemma own_In t k v : own t k = Some v -> In (k, v) t.
Proof.
  induction t as [|[k' v'] t IH]; [discriminate|].
  cbn [own]. destruct (str_eqb k k') eqn:E.
  - apply str_eqb_eq in E. intros H. injection H as ->. left. congruence.
  - intros H. right. auto.
Qed.

Lemma own_key t k : In k (keys t) -> exists v, own t k = Some v.
Proof.
  induction t as [|[k' v'] t IH]; [intros []|].
  cbn [keys List.map fst own]. intros [<- | H].
  - rewrite str_eqb_refl. eauto.
  - destruct (str_eqb k k'); eauto.
Qed.

(** The first rule of the matcher, for any table. *)
Lemma exact_hit (database : table) (k : jsstring) :
  normalizeIngredientName k = k ->
  truthy (get database k) = true ->
  findBestIngredientMatch k database = Some {| key := k; Helpers.confidence := Fin 1.0 |}.
Proof.
  intros N T. unfold findBestIngredientMatch. rewrite N, T. reflexivity.
Qed.

(** Every key of the table is a normalized name with a non-zero value. *)
Lemma table_keys_canonical :
  forallb (fun k => str_eqb (normalizeIngredientName k) k
                    && truthy (get CARBON_FOOTPRINT_DB k))
          (keys CARBON_FOOTPRINT_DB) = true.
Proof. vm_compute. reflexivity. Qed.

(** Each key of the table of the service is such an entry: it is its
    own normalized form, and its value is not zero. *)
Lemma table_key_is_exact (k : jsstring) :
  In k (keys CARBON_FOOTPRINT_DB) ->
  normalizeIngredientName k = k
  /\ (exists v, own CARBON_FOOTPRINT_DB k = Some v /\ number_truthy v = true)
  /\ findBestIngredientMatch k CARBON_FOOTPRINT_DB
     = Some {| key := k; Helpers.confidence := Fin 1.0 |}.
Proof.
  intros H. pose proof table_keys_canonical as C.
  rewrite forallb_forall in C. specialize (C k H).
  apply andb_true_iff in C. destruct C as [C1 C2].
  apply str_eqb_eq in C1.
  split; [exact C1 | split].
  - destruct (own_key CARBON_FOOTPRINT_DB k H) as [v O].
    exists v. split; [exact O|].
    unfold get in C2. rewrite O in C2. exact C2.
  - apply exact_hit; [exact C1 | exact C2].
Qed.



(** The first rule wins over a longer key that the substring rule
    would retain. *)
Example exact_beats_longer_key :
  let database := [entry "oil" 1.0; entry "olive oil" 5.4] in
  partialMatches (lit "oil") database = [lit "oil"; lit "olive oil"]
  /\ findBestIngredientMatch (lit "oil") database
     = Some {| key := lit "oil"; Helpers.confidence := Fin 1.0 |}.
Proof. by_computation. Qed.

(** C5 as stated fails on the tie: of two retained keys of the same
    greatest length the matcher returns the later one. *)
Lemma tie_break_is_not_first :
  normalizeIngredientName (lit "beef lamb") = lit "beef lamb"
  /\ own CARBON_FOOTPRINT_DB (lit "beef lamb") = None
  /\ partialMatches (lit "beef lamb") CARBON_FOOTPRINT_DB = [lit "beef"; lit "lamb"]
  /\ findBestIngredientMatch (lit "beef lamb") CARBON_FOOTPRINT_DB
     <> Some {| key := lit "beef"; Helpers.confidence := Fin 0.8 |}.
Proof.
  repeat match goal with |- _ /\ _ => split end;
    try (vm_compute; reflexivity).
  vm_compute. discriminate.
Qed.

(** C5, amended: when the normalized name has no truthy entry of its
    own and the substring rule retains some key, the matcher returns a
    retained key [K] with confidence 0.8; no retained key is longer than
    [K], and every retained key after [K] in the order of the table is
    strictly shorter, so of several longest keys the last one wins. *)
Theorem substring_match_longest_last (database : table) (name : jsstring) :
  truthy (get database (normalizeIngredientName name)) = false ->
  partialMatches (normalizeIngredientName name) database <> [] ->
  exists K before after,
    findBestIngredientMatch name database
    = Some {| key := K; Helpers.confidence := Fin 0.8 |}
    /\ partialMatches (normalizeIngredientName name) database = before ++ K :: after
    /\ In K (keys database)
    /\ partial_match (normalizeIngredientName name) K = true
    /\ (forall K', In K' before -> List.length K' <= List.length K)
    /\ (forall K', In K' after -> List.length K' < List.length K).
Proof.
  intros T NE. unfold findBestIngredientMatch. rewrite T.
  change (filter (partial_match (normalizeIngredientName name)) (keys database))
    with (partialMatches (normalizeIngredientName name) database).
  destruct (partialMatches (normalizeIngredientName name) database)
    as [|first others] eqn:P; [congruence|].
  destruct (reduce_longer others first) as (before & after & E & B & A).
  exists (fold_left longer others first), before, after.
  assert (I : In (fold_left longer others first)
                 (partialMatches (normalizeIngredientName name) database)).
  { rewrite P, E. apply in_or_app. right. left. reflexivity. }
  unfold partialMatches in I. apply filter_In in I.
  repeat split; tauto.
Qed.

Lemma substring_match_longest_last_witness :
  truthy (get CARBON_FOOTPRINT_DB (normalizeIngredientName (lit "Beef & Lamb"))) = false
  /\ partialMatches (normalizeIngredientName (lit "Beef & Lamb")) CARBON_FOOTPRINT_DB <> []
  /\ exists K before after,
       findBestIngredientMatch (lit "Beef & Lamb") CARBON_FOOTPRINT_DB
       = Some {| key := K; Helpers.confidence := Fin 0.8 |}
       /\ partialMatches (normalizeIngredientName (lit "Beef & Lamb")) CARBON_FOOTPRINT_DB
          = before ++ K :: after
       /\ In K (keys CARBON_FOOTPRINT_DB)
       /\ partial_match (normalizeIngredientName (lit "Beef & Lamb")) K = true
       /\ (forall K', In K' before -> List.length K' <= List.length K)
       /\ (forall K', In K' after -> List.length K' < List.length K).
Proof.
  assert (H1 : truthy (get CARBON_FOOTPRINT_DB
                         (normalizeIngredientName (lit "Beef & Lamb"))) = false)
    by (vm_compute; reflexivity).
  assert (H2 : partialMatches (normalizeIngredientName (lit "Beef & Lamb"))
                              CARBON_FOOTPRINT_DB <> [])
    by (vm_compute; discriminate).
  split; [exact H1|]. split; [exact H2|].
  exact (substring_match_longest_last CARBON_FOOTPRINT_DB (lit "Beef & Lamb") H1 H2).
Defined.

Lemma own_not_key t k : ~ In k (keys t) -> own t k = None.
Proof.
  induction t as [|[k' v'] t IH]; [reflexivity|].
  cbn [keys List.map fst In own]. intros H.
  destruct (str_eqb k k') eqn:E.
  - apply str_eqb_eq in E. exfalso. apply H. left. congruence.
  - apply IH. intros I. apply H. right. exact I.
Qed.

(** The matcher never returns [null]. *)
Lemma findBestIngredientMatch_total (name : jsstring) (database : table) :
  exists m, findBestIngredientMatch name database = Some m.
Proof.
  unfold findBestIngredientMatch.
  destruct (truthy (get database (normalizeIngredientName name))); eauto.
  destruct (filter _ (keys database)); eauto.
Qed.

(** C10: a name that normalizes to the empty string is matched by the
    substring rule to the longest key of the table, and resolved to its
    value. *)
Theorem empty_name_matches_vegetable_oil (ingredient : RawIngredient) :
  normalizeIngredientName (raw_name ingredient) = [] ->
  partialMatches [] CARBON_FOOTPRINT_DB = keys CARBON_FOOTPRINT_DB
  /\ findBestIngredientMatch (normalizeIngredientName (raw_name ingredient))
                             CARBON_FOOTPRINT_DB
     = Some {| key := lit "vegetable oil"; Helpers.confidence := Fin 0.8 |}
  /\ carbonValue ingredient = get CARBON_FOOTPRINT_DB (lit "vegetable oil")
  /\ carbonValue ingredient = VNumber (Fin 3.2)
  /\ same_number (carbon_kg (processIngredient ingredient)) (Fin 3.2).
Proof.
  intros H.
  assert (M : findBestIngredientMatch (normalizeIngredientName (raw_name ingredient))
                                      CARBON_FOOTPRINT_DB
              = Some {| key := lit "vegetable oil"; Helpers.confidence := Fin 0.8 |})
    by (rewrite H; vm_compute; reflexivity).
  assert (V : carbonValue ingredient = VNumber (Fin 3.2))
    by (unfold carbonValue, mapping; rewrite M; vm_compute; reflexivity).
  split; [vm_compute; reflexivity|].
  split; [exact M|].
  split; [rewrite V; vm_compute; reflexivity|].
  split; [exact V|].
  cbn [processIngredient carbon_kg]. rewrite V. vm_compute. reflexivity.
Qed.

Lemma empty_name_matches_vegetable_oil_witness :
  normalizeIngredientName (raw_name qualifiers_only) = []
  /\ findBestIngredientMatch (normalizeIngredientName (raw_name qualifiers_only))
                             CARBON_FOOTPRINT_DB
     = Some {| key := lit "vegetable oil"; Helpers.confidence := Fin 0.8 |}
  /\ same_number (carbon_kg (processIngredient qualifiers_only)) (Fin 3.2).
Proof.
  assert (H : normalizeIngredientName (raw_name qualifiers_only) = [])
    by (vm_compute; reflexivity).
  pose proof (empty_name_matches_vegetable_oil qualifiers_only H) as (_ & M & _ & _ & S).
  split; [exact H|]. split; [exact M | exact S].
Defined.

(* ================================================================== *)
(** ** Numbers *)
(* ================================================================== *)

Lemma same_numberb_spec a b : same_numberb a b = true <-> same_number a b.
Proof.
  destruct a as [x|], b as [y|]; simpl; try (split; [discriminate | tauto]).
  - apply Qeq_bool_iff.
  - tauto.
Qed.

Lemma same_number_refl a : same_number a a.
Proof. destruct a; simpl; [reflexivity | exact I]. Qed.

Lemma same_number_sym a b : same_number a b -> same_number b a.
Proof. destruct a, b; simpl; auto. intros H. symmetry. exact H. Qed.

Lemma same_number_trans a b c : same_number a b -> same_number b c -> same_number a c.
Proof.
  destruct a, b, c; simpl; auto; try tauto.
  intros H1 H2. rewrite H1. exact H2.
Qed.

Lemma nadd_same a a' b b' :
  same_number a a' -> same_number b b' -> same_number (nadd a b) (nadd a' b').
Proof.
  destruct a, a', b, b'; simpl; auto; try tauto.
  intros H1 H2. rewrite H1, H2. reflexivity.
Qed.

Lemma nadd_assoc a b c : same_number (nadd (nadd a b) c) (nadd a (nadd b c)).
Proof. destruct a, b, c; simpl; auto. symmetry. apply Qplus_assoc. Qed.

Lemma nadd_zero_l a : same_number (nadd (Fin 0) a) a.
Proof. destruct a; simpl; auto. apply Qplus_0_l. Qed.

Lemma round2_same a b : same_number a b -> same_number (round2 a) (round2 b).
Proof.
  destruct a as [x|], b as [y|];
    unfold round2, ndiv, Math_round, nmul, same_number; auto.
  intros H.
  rewrite (Qfloor_comp (x * 100 + (1 # 2)) (y * 100 + (1 # 2)));
    [reflexivity | rewrite H; reflexivity].
Qed.

(** [reduce] from the left adds up to the sum. *)
Lemma fold_left_nadd xs a : same_number (fold_left nadd xs a) (nadd a (sum_of xs)).
Proof.
  revert a; induction xs as [|x xs IH]; intros a.
  - destruct a; simpl; auto. symmetry. apply Qplus_0_r.
  - cbn [fold_left sum_of fold_right].
    eapply same_number_trans; [apply IH|]. apply nadd_assoc.
Qed.

Lemma totalCarbon_map items :
  totalCarbon items = fold_left nadd (List.map carbon_kg items) (Fin 0).
Proof.
  unfold totalCarbon. generalize (Fin 0).
  induction items as [|i items IH]; intros a; [reflexivity|].
  simpl. apply IH.
Qed.

Lemma totalCarbon_sum items :
  same_number (totalCarbon items) (sum_of (List.map carbon_kg items)).
Proof.
  rewrite totalCarbon_map.
  eapply same_number_trans; [apply fold_left_nadd | apply nadd_zero_l].
Qed.

(* ================================================================== *)
(** ** The aggregator *)
(* ================================================================== *)




Lemma sum_of_NaN (xs : list number) : In NaN xs -> sum_of xs = NaN.
Proof.
  induction xs as [|x xs IH]; [intros []|].
  cbn [sum_of fold_right]. fold (sum_of xs). intros [-> | H]; [reflexivity|].
  rewrite (IH H). destruct x; reflexivity.
Qed.

Lemma same_number_NaN (a : number) : same_number a NaN -> a = NaN.
Proof. destruct a; simpl; [intros [] | reflexivity]. Qed.


Lemma aggregation_NaN (items : list Ingredient) :
  In NaN (List.map carbon_kg items) -> round2 (totalCarbon items) = NaN.
Proof.
  intros H. pose proof (totalCarbon_sum items) as S.
  rewrite (sum_of_NaN _ H) in S.
  rewrite (same_number_NaN _ S). reflexivity.
Qed.


(** Every line item keeps the name it came with, in the order of the
    input. *)
Lemma aggregate_names dishName raws source processingTimeMs calculationDuration :
  List.map name
    (ingredients
       (calculateCarbonFootprint dishName raws source processingTimeMs calculationDuration))
  = List.map raw_name raws.
Proof.
  unfold calculateCarbonFootprint. cbn [ingredients].
  rewrite List.map_map. reflexivity.
Qed.

(** *** Confidence *)

(** The confidence before rounding, for whatever the matcher returns. *)
Lemma blend_formula (ingredient : RawIngredient) :
  exists m,
    findBestIngredientMatch (normalizeIngredientName (raw_name ingredient))
                            CARBON_FOOTPRINT_DB = Some m
    /\ blendedConfidence ingredient
       = nmul (Helpers.confidence m)
              (or_default (raw_confidence ingredient) (Fin 0.8)).
Proof.
  destruct (findBestIngredientMatch_total
              (normalizeIngredientName (raw_name ingredient)) CARBON_FOOTPRINT_DB)
    as [m M].
  exists m. split; [exact M|].
  unfold blendedConfidence, mapping. rewrite M. reflexivity.
Qed.

(** For a confidence that is absent, or present and neither 0 nor NaN,
    the blend is the product that C3 describes. *)
Lemma blend_default_when_absent d : or_default None d = d.
Proof. reflexivity. Qed.

Lemma blend_keeps_truthy c d : number_truthy c = true -> or_default (Some c) d = c.
Proof. intros H. unfold or_default. rewrite H. reflexivity. Qed.

(** C3 fails on the code: a confidence supplied as 0 is replaced by the
    default 0.8, so the blend for an exact match is 0.8 and not 0. *)
Theorem zero_confidence_gets_default :
  let ingredient := {| raw_name := lit "beef"; raw_confidence := Some (Fin 0) |} in
  findBestIngredientMatch (normalizeIngredientName (raw_name ingredient))
                          CARBON_FOOTPRINT_DB
  = Some {| key := lit "beef"; Helpers.confidence := Fin 1.0 |}
  /\ same_number (blendedConfidence ingredient) (Fin 0.8)
  /\ ~ same_number (blendedConfidence ingredient) (Fin 0)
  /\ same_number (confidence (processIngredient ingredient)) (Fin 0.8).
Proof.
  cbn zeta. split; [vm_compute; reflexivity|].
  split; [vm_compute; reflexivity|].
  split; [vm_compute; discriminate | vm_compute; reflexivity].
Qed.

(** *** Carbon values *)

Lemma table_values_rounded :
  forallb (fun kv => same_numberb (round2 (snd kv)) (snd kv)
                     && match snd kv with Fin _ => true | NaN => false end)
          CARBON_FOOTPRINT_DB = true.
Proof. vm_compute. reflexivity. Qed.

Lemma table_value_round2 k v :
  In (k, v) CARBON_FOOTPRINT_DB -> same_number (round2 v) v /\ v <> NaN.
Proof.
  intros H. pose proof table_values_rounded as R.
  rewrite forallb_forall in R. specialize (R (k, v) H). cbn [snd] in R.
  apply andb_true_iff in R. destruct R as [R1 R2].
  split; [apply same_numberb_spec; exact R1 | destruct v; congruence].
Qed.

(** Of the names a plain object inherits, the normalizer can produce
    one only. *)
Lemma plain_inherited_key n :
  forallb plain n = true ->
  existsb (str_eqb n) object_prototype_keys = true ->
  n = lit "constructor".
Proof.
  intros P H. apply existsb_exists in H. destruct H as (k & I & E).
  apply str_eqb_eq in E. subst k.
  unfold object_prototype_keys in I. cbn [List.map In] in I.
  repeat (destruct I as [<- | I];
          [first [reflexivity | vm_compute in P; discriminate]|]).
  destruct I.
Qed.

(** The key the matcher returns is an own key of the table, as long as
    the table has the key [unknown] and the first rule is not entered
    through an inherited property. *)
Lemma matched_key_own (database : table) (name : jsstring) :
  own database (lit "unknown") <> None ->
  (truthy (get database (normalizeIngredientName name)) = true ->
   own database (normalizeIngredientName name) <> None) ->
  exists m v,
    findBestIngredientMatch name database = Some m
    /\ own database (key m) = Some v.
Proof.
  intros U X. unfold findBestIngredientMatch.
  destruct (truthy (get database (normalizeIngredientName name))) eqn:T.
  - specialize (X eq_refl).
    destruct (own database (normalizeIngredientName name)) as [v|] eqn:O; [|congruence].
    eexists _, v. split; [reflexivity | exact O].
  - change (filter (partial_match (normalizeIngredientName name)) (keys database))
      with (partialMatches (normalizeIngredientName name) database).
    destruct (partialMatches (normalizeIngredientName name) database)
      as [|first others] eqn:P.
    + destruct (own database (lit "unknown")) as [u|] eqn:O; [|congruence].
      eexists _, u. split; [reflexivity | exact O].
    + destruct (reduce_longer others first) as (before & after & E & _).
      assert (I : In (fold_left longer others first)
                     (partialMatches (normalizeIngredientName name) database)).
      { rewrite P, E. apply in_or_app. right. left. reflexivity. }
      unfold partialMatches in I. apply filter_In in I. destruct I as [I _].
      destruct (own_key database _ I) as [v O].
      eexists _, v. split; [reflexivity | exact O].
Qed.

(** Unless the name normalizes to [constructor], the key the matcher
    returns is a key of the table of the service. *)
Lemma matched_key_in_table (name : jsstring) :
  normalizeIngredientName name <> lit "constructor" ->
  exists m v,
    findBestIngredientMatch name CARBON_FOOTPRINT_DB = Some m
    /\ own CARBON_FOOTPRINT_DB (key m) = Some v.
Proof.
  intros NC. apply matched_key_own.
  - vm_compute. discriminate.
  - unfold get.
    destruct (own CARBON_FOOTPRINT_DB (normalizeIngredientName name)); [discriminate|].
    destruct (existsb (str_eqb (normalizeIngredientName name)) object_prototype_keys)
      eqn:I; [|discriminate].
    exfalso. apply NC. apply plain_inherited_key; [apply normalize_plain | exact I].
Qed.

(** On the table of the service the premise of C5 is the premise of
    the theorem: a normalized name that is no key of the table and that
    the substring rule relates to some key has no truthy entry, not even
    an inherited one. *)
Lemma unlisted_name_is_falsy (name : jsstring) :
  ~ In (normalizeIngredientName name) (keys CARBON_FOOTPRINT_DB) ->
  partialMatches (normalizeIngredientName name) CARBON_FOOTPRINT_DB <> [] ->
  truthy (get CARBON_FOOTPRINT_DB (normalizeIngredientName name)) = false.
Proof.
  intros NK PM. unfold get. rewrite (own_not_key _ _ NK).
  destruct (existsb (str_eqb (normalizeIngredientName name)) object_prototype_keys)
    eqn:I; [|reflexivity].
  exfalso. apply PM.
  rewrite (plain_inherited_key _ (normalize_plain name) I).
  vm_compute. reflexivity.
Qed.

Lemma collapse_ws_no_space s :
  forallb (fun c => negb (is_space c)) (collapse_ws false s) = true ->
  collapse_ws false s = s.
Proof.
  induction s as [|c t IH]; [reflexivity|].
  cbn [collapse_ws]. destruct (is_space c) eqn:E; cbn [forallb].
  - rewrite is_space_space. discriminate.
  - rewrite E. cbn [negb andb]. intros H. f_equal. auto.
Qed.

Lemma normalize_twice_constructor x :
  normalizeIngredientName (normalizeIngredientName x) = lit "constructor" ->
  normalizeIngredientName x = lit "constructor".
Proof.
  rewrite normalize_twice_collapse. intros H.
  rewrite <- H. symmetry. apply collapse_ws_no_space. rewrite H.
  vm_compute. reflexivity.
Qed.

(** Off that one name, C9 holds: the carbon value of a line item is a
    value of the table, and rounding leaves it as it is. *)
Lemma carbon_kg_from_table (ingredient : RawIngredient) :
  normalizeIngredientName (raw_name ingredient) <> lit "constructor" ->
  exists k v,
    In (k, v) CARBON_FOOTPRINT_DB
    /\ carbonValue ingredient = VNumber v
    /\ same_number (carbon_kg (processIngredient ingredient)) v.
Proof.
  intros NC.
  assert (NC' : normalizeIngredientName (normalizeIngredientName (raw_name ingredient))
                <> lit "constructor")
    by (intros H; apply NC, normalize_twice_constructor, H).
  destruct (matched_key_in_table _ NC') as (m & v & M & O).
  exists (key m), v.
  assert (V : carbonValue ingredient = VNumber v).
  { unfold carbonValue, mapping. rewrite M. cbn [fst]. unfold get. rewrite O. reflexivity. }
  split; [apply own_In; exact O|]. split; [exact V|].
  cbn [processIngredient carbon_kg]. rewrite V. cbn [toNumber].
  apply (@table_value_round2 (key m) v), own_In, O.
Qed.

(** C9 fails on the code: the table is a plain object, the name
    [constructor] reads the function it inherits, and the line item and
    the total are [NaN], which is no value of the table. *)
Theorem constructor_is_no_table_value :
  let ingredient := {| raw_name := lit "constructor"; raw_confidence := Some (Fin 0.9) |} in
  own CARBON_FOOTPRINT_DB (lit "constructor") = None
  /\ findBestIngredientMatch (normalizeIngredientName (raw_name ingredient))
                             CARBON_FOOTPRINT_DB
     = Some {| key := lit "constructor"; Helpers.confidence := Fin 1.0 |}
  /\ carbonValue ingredient = VInherited
  /\ carbon_kg (processIngredient ingredient) = NaN
  /\ estimated_carbon_kg
       (calculateCarbonFootprint (lit "Soup") [ingredient] text None (Fin 0)) = NaN
  /\ ~ (exists k v, In (k, v) CARBON_FOOTPRINT_DB
                    /\ same_number (carbon_kg (processIngredient ingredient)) v).
Proof.
  cbn zeta. repeat (split; [vm_compute; reflexivity|]).
  intros (k & v & I & S). apply table_value_round2 in I. destruct I as [_ I].
  assert (E : carbon_kg (processIngredient
                {| raw_name := lit "constructor"; raw_confidence := Some (Fin 0.9) |}) = NaN)
    by (vm_compute; reflexivity).
  rewrite E in S. destruct v; [exact S | congruence].
Qed.

(* ================================================================== *)
(** ** The text route *)
(* ================================================================== *)

(** C8 as stated fails: the rejection of the script tag does not carry
    the malicious-content reason, although the custom rule would flag
    the value if it were reached. *)
Lemma script_reason_is_not_malicious :
  malicious (lit "<script>alert(1)</script>") = true
  /\ validateTextEstimation (Some (dish_body (lit "<script>alert(1)</script>")))
     <> dish_rejected string_malicious.
Proof. split; [vm_compute; reflexivity | vm_compute; discriminate]. Qed.

(** C8, amended: the script tag is rejected by the rule that comes
    before the custom one, the character class, which has no [<], and
    the reason is the one for invalid characters. *)
Theorem script_rejected_as_invalid_characters :
  validateTextEstimation (Some (dish_body (lit "<script>alert(1)</script>")))
  = dish_rejected string_pattern_base
  /\ messages string_pattern_base = Some "Dish name contains invalid characters"%string
  /\ dish_char 60 = false.
Proof. by_computation. Qed.

Lemma quoted_length_bound s : quoted_length s <= 6 * List.length s.
Proof.
  assert (G : forall n s, List.length s <= n -> quoted_length s <= 6 * List.length s).
  { clear s. induction n as [|n IH]; intros s L.
    - destruct s; [simpl; lia | simpl in L; lia].
    - destruct s as [|c t]; [simpl; lia|]. simpl in L.
      assert (Ht : quoted_length t <= 6 * List.length t) by (apply IH; lia).
      cbn [quoted_length]. destruct (is_high_surrogate c).
      + destruct t as [|d t']; [simpl; lia|].
        destruct (is_low_surrogate d).
        * assert (quoted_length t' <= 6 * List.length t') by (apply IH; simpl in L; lia).
          simpl List.length. lia.
        * simpl List.length in *. lia.
      + destruct (is_low_surrogate c).
        * simpl List.length. lia.
        * assert (escape_length c <= 6).
          { unfold escape_length.
            repeat match goal with |- context [if ?b then _ else _] => destruct b end; lia. }
          simpl List.length. lia. }
  apply (G (List.length s)). apply Nat.le_refl.
Qed.

Lemma dish_body_length s : stringify_length (dish_body s) = 11 + quoted_length s.
Proof.
  unfold dish_body.
  cbn [stringify_length List.map list_sum fold_right fst snd List.length pred].
  change (quoted_length (lit "dish")) with 4. lia.
Qed.

(** What the schema says of a body [{dish: s}]. *)
Lemma schema_dish_body s :
  textEstimationSchema (dish_body s) =
  match s with
  | [] => inl {| path := lit "dish"; reason := string_empty |}
  | _ :: _ =>
      match run_rules dish_rules s with
      | Some c => inl {| path := lit "dish"; reason := c |}
      | None => inr s
      end
  end.
Proof.
  unfold dish_body, textEstimationSchema.
  change (clone_own [(lit "dish", JString s)]) with [(lit "dish", JString s)].
  change (clone_get [(lit "dish", JString s)] (lit "dish")) with (Some (JString s)).
  cbn [Joi_string_required]. destruct s as [|c t]; [reflexivity|].
  destruct (run_rules dish_rules (c :: t)); reflexivity.
Qed.

Lemma rules_dish s :
  forallb dish_char s = true -> malicious s = false -> repeatedChars s = false ->
  s <> [] ->
  run_rules dish_rules s =
  if (200 <? List.length s) then Some string_max
  else if (List.length (trim s) =? 0) then Some string_empty
  else None.
Proof.
  intros A M R NE. unfold dish_rules. cbn [run_rules].
  unfold min. destruct s as [|c t]; [congruence|].
  change (List.length (c :: t) <? 1) with false. cbn iota.
  unfold max. destruct (200 <? List.length (c :: t)); [reflexivity|].
  unfold matching, dish_pattern. rewrite A.
  unfold custom. rewrite M, R.
  destruct (List.length (trim (c :: t)) =? 0); reflexivity.
Qed.

(** The middleware on a body [{dish: s}] whose value gets through the
    character class, the scan for malicious content and the check of
    repeated characters. *)
Lemma validate_dish_body s :
  forallb dish_char s = true -> malicious s = false -> repeatedChars s = false ->
  validateTextEstimation (Some (dish_body s)) =
  if (10000 <? N.of_nat (11 + quoted_length s))%N then throw BodyTooLarge NoDetails
  else match s with
       | [] => dish_rejected string_empty
       | _ :: _ =>
           if (200 <? List.length s) then dish_rejected string_max
           else if (List.length (trim s) =? 0) then dish_rejected string_empty
           else next (dish_body (sanitizeTextInput s))
       end.
Proof.
  intros A M R. unfold validateTextEstimation.
  change (falsy_body (Some (dish_body s)) || negb (typeof_object (dish_body s)))
    with false. cbn iota.
  rewrite dish_body_length.
  destruct (10000 <? N.of_nat (11 + quoted_length s))%N; [reflexivity|].
  change (10 <? key_count (dish_body s)) with false. cbn iota.
  rewrite schema_dish_body.
  change (logged_dish_throws (dish_body s)) with false. cbn iota.
  destruct s as [|c t]; [reflexivity|].
  rewrite rules_dish by (auto; discriminate).
  destruct (200 <? List.length (c :: t)); [reflexivity|].
  destruct (List.length (trim (c :: t)) =? 0); reflexivity.
Qed.

(** C7 as stated fails: 201 code units of which 198 are left after
    trimming get through the three checks and are refused, because the
    limit of 200 is on the length as received. *)
Lemma untrimmed_length_is_limited :
  forallb dish_char padded_dish = true
  /\ malicious padded_dish = false
  /\ repeatedChars padded_dish = false
  /\ List.length padded_dish = 201
  /\ List.length (trim padded_dish) = 198
  /\ validateTextEstimation (Some (dish_body padded_dish)) = dish_rejected string_max.
Proof. by_computation. Qed.

(** C7, amended: a value that gets through the character class, the
    scan for malicious content and the check of repeated characters is
    accepted exactly when its length as received is at most 200 and
    its trimmed length is at least 1; the body then becomes the
    sanitized value. *)
Theorem text_accepted_iff_lengths (s : jsstring) :
  forallb dish_char s = true -> malicious s = false -> repeatedChars s = false ->
  ((exists body, validateTextEstimation (Some (dish_body s)) = next body)
   <-> 1 <= List.length (trim s) /\ List.length s <= 200)
  /\ (forall body, validateTextEstimation (Some (dish_body s)) = next body ->
      body = dish_body (sanitizeTextInput s)).
Proof.
  intros A M R. rewrite (validate_dish_body s A M R).
  pose proof (quoted_length_bound s) as Q.
  destruct (10000 <? N.of_nat (11 + quoted_length s))%N eqn:B.
  - apply N.ltb_lt in B. split.
    + split; [intros [b H]; discriminate | intros [_ L]; exfalso].
      assert (6 * List.length s <= 1200) by lia. lia.
    + intros b H. discriminate.
  - destruct s as [|c t].
    + split; [|intros b H; discriminate].
      split; [intros [b H]; discriminate | simpl; lia].
    + destruct (200 <? List.length (c :: t)) eqn:L.
      * apply Nat.ltb_lt in L. split; [|intros b H; discriminate].
        split; [intros [b H]; discriminate | lia].
      * apply Nat.ltb_ge in L.
        destruct (List.length (trim (c :: t)) =? 0) eqn:T.
        -- apply Nat.eqb_eq in T. split; [|intros b H; discriminate].
           split; [intros [b H]; discriminate | lia].
        -- apply Nat.eqb_neq in T. split.
           ++ split; [intros _; lia | intros _; eauto].
           ++ intros b H. injection H as <-. reflexivity.
Qed.

Lemma text_accepted_iff_lengths_witness :
  forallb dish_char (lit "Chicken Biryani") = true
  /\ malicious (lit "Chicken Biryani") = false
  /\ repeatedChars (lit "Chicken Biryani") = false
  /\ ((exists body, validateTextEstimation (Some (dish_body (lit "Chicken Biryani")))
                    = next body)
      <-> 1 <= List.length (trim (lit "Chicken Biryani"))
          /\ List.length (lit "Chicken Biryani") <= 200).
Proof.
  assert (A : forallb dish_char (lit "Chicken Biryani") = true) by (vm_compute; reflexivity).
  assert (M : malicious (lit "Chicken Biryani") = false) by (vm_compute; reflexivity).
  assert (R : repeatedChars (lit "Chicken Biryani") = false) by (vm_compute; reflexivity).
  split; [exact A|]. split; [exact M|]. split; [exact R|].
  exact (proj1 (text_accepted_iff_lengths (lit "Chicken Biryani") A M R)).
Defined.

(* ================================================================== *)
(** ** The upload route *)
(* ================================================================== *)

Lemma every_from_jpeg buf :
  every_from 0 (firstn 4 buf) [Byte.xff; Byte.xd8; Byte.xff]
  = starts_with_bytes [Byte.xff; Byte.xd8; Byte.xff] buf.
Proof.
  destruct buf as [|b0 [|b1 [|b2 [|b3 r]]]]; cbn;
    repeat match goal with |- context [Byte.eqb ?x ?y] => destruct (Byte.eqb x y) end;
    reflexivity.
Qed.

Lemma every_from_four h0 h1 h2 h3 buf :
  every_from 0 (firstn 4 buf) [h0; h1; h2; h3]
  = starts_with_bytes [h0; h1; h2; h3] buf.
Proof.
  destruct buf as [|b0 [|b1 [|b2 [|b3 r]]]]; cbn;
    repeat match goal with |- context [Byte.eqb ?x ?y] => destruct (Byte.eqb x y) end;
    reflexivity.
Qed.

(** The check of the header, type by type: [image/jpg] has no entry in
    [imageHeaders]. *)
Lemma isValidHeader_by_type mt buf :
  isValidHeader mt buf =
  (str_eqb (lit "image/jpeg") mt && starts_with_bytes [Byte.xff; Byte.xd8; Byte.xff] buf)
  || ((str_eqb (lit "image/png") mt
       && starts_with_bytes [Byte.x89; Byte.x50; Byte.x4e; Byte.x47] buf)
      || (str_eqb (lit "image/webp") mt
          && starts_with_bytes [Byte.x52; Byte.x49; Byte.x46; Byte.x46] buf)).
Proof.
  unfold isValidHeader, imageHeaders. cbn [existsb fst snd].
  rewrite every_from_jpeg, !every_from_four.
  destruct (str_eqb (lit "image/jpeg") mt), (str_eqb (lit "image/png") mt),
    (str_eqb (lit "image/webp") mt); cbn [andb orb];
    rewrite ?orb_false_r; reflexivity.
Qed.

Lemma isValidHeader_jpg buf : isValidHeader (lit "image/jpg") buf = false.
Proof. rewrite isValidHeader_by_type. reflexivity. Qed.

(** An upload that gets as far as the check of the signature is
    accepted exactly when that check succeeds. *)
Lemma upload_accepted_iff_header maxFileSizeMB file buf :
  reaches_signature_check maxFileSizeMB file buf ->
  validateImageUpload maxFileSizeMB (Some file)
  = if isValidHeader (mimetype file) buf then next tt
    else throw HeaderMismatch NoDetails.
Proof.
  intros (T & S & B & F & L). unfold validateImageUpload.
  rewrite T. cbn [negb]. rewrite S. cbn [negb]. rewrite B.
  destruct buf as [|b buf]; [simpl in L; lia|].
  destruct (filename file) as [n|].
  - destruct F as [F1 F2]. rewrite F2.
    assert (E : (255 <? List.length n) = false) by (apply Nat.ltb_ge; exact F1).
    rewrite E.
    assert (E' : (List.length (b :: buf) <? 100) = false) by (apply Nat.ltb_ge; exact L).
    rewrite E'. destruct (isValidHeader (mimetype file) (b :: buf)); reflexivity.
  - assert (E' : (List.length (b :: buf) <? 100) = false) by (apply Nat.ltb_ge; exact L).
    rewrite E'. destruct (isValidHeader (mimetype file) (b :: buf)); reflexivity.
Qed.

(** Whatever its bytes, an upload declared as [image/jpg] is never
    accepted. *)
Lemma image_jpg_never_accepted maxFileSizeMB file :
  mimetype file = lit "image/jpg" ->
  validateImageUpload maxFileSizeMB (Some file) <> next tt.
Proof.
  intros E. unfold validateImageUpload. rewrite E.
  repeat match goal with
         | |- context [if ?b then _ else _] => destruct b; try discriminate
         | |- context [match ?b with Some _ => _ | None => _ end] =>
             destruct b; try discriminate
         | |- context [match ?b with [] => _ | _ :: _ => _ end] =>
             destruct b; try discriminate
         end.
  all: rewrite isValidHeader_jpg in *; discriminate.
Qed.

(** For the three declared types that have an entry, the claim holds:
    the upload is accepted exactly when its first bytes are the
    signature of the declared type. *)
Lemma upload_accepted_iff_signature maxFileSizeMB file buf header :
  reaches_signature_check maxFileSizeMB file buf ->
  In (mimetype file, header) imageHeaders ->
  (validateImageUpload maxFileSizeMB (Some file) = next tt
   <-> starts_with_bytes header buf = true).
Proof.
  intros R I. rewrite (upload_accepted_iff_header R), isValidHeader_by_type.
  unfold imageHeaders in I. cbn [In] in I.
  destruct I as [I | [I | [I | []]]]; injection I as <- <-;
    rewrite ?str_eqb_refl;
    change (str_eqb (lit "image/jpeg") (lit "image/png")) with false;
    change (str_eqb (lit "image/jpeg") (lit "image/webp")) with false;
    change (str_eqb (lit "image/png") (lit "image/webp")) with false;
    cbn [andb orb]; rewrite ?orb_false_r;
    match goal with
    | |- context [starts_with_bytes ?h buf] => destruct (starts_with_bytes h buf)
    end; split; (reflexivity || discriminate).
Qed.

(** C2 fails on the code for [image/jpg]: the type is on the allowlist,
    the bytes are those of a JPEG file, every earlier check passes, and
    the upload is refused for its header; the same file declared as
    [image/jpeg] is accepted. *)
Theorem image_jpg_signature_refused :
  reaches_signature_check 10 (jpeg_upload "image/jpg")
    ([Byte.xff; Byte.xd8; Byte.xff; Byte.xe0] ++ repeat Byte.x00 1000)
  /\ starts_with_bytes [Byte.xff; Byte.xd8; Byte.xff]
       ([Byte.xff; Byte.xd8; Byte.xff; Byte.xe0] ++ repeat Byte.x00 1000) = true
  /\ validateImageUpload 10 (Some (jpeg_upload "image/jpg"))
     = throw HeaderMismatch NoDetails
  /\ validateImageUpload 10 (Some (jpeg_upload "image/jpeg")) = next tt.
Proof.
  split.
  - unfold reaches_signature_check.
    change (filename (jpeg_upload "image/jpg")) with (Some (lit "test.jpg")).
    repeat match goal with |- _ /\ _ => split end;
      try (vm_compute; reflexivity);
      apply Nat.leb_le; vm_compute; reflexivity.
  - by_computation.
Qed.

(* ================================================================== *)
(** ** The tests of the repository, replayed *)
(* ================================================================== *)

Example test_known_ingredients :
  let result :=
    calculateCarbonFootprint (lit "Chicken Rice")
      [ {| raw_name := lit "chicken"; raw_confidence := Some (Fin 0.9) |};
        {| raw_name := lit "rice"; raw_confidence := Some (Fin 0.8) |} ]
      text None (Fin 0) in
  List.map name (ingredients result) = [lit "chicken"; lit "rice"]
  /\ List.map (fun i => same_numberb (carbon_kg i) (Fin 6.9)) (ingredients result)
     = [true; false]
  /\ same_numberb (estimated_carbon_kg result) (Fin 10.9) = true
  /\ source (metadata result) = text.
Proof. by_computation. Qed.

Example test_unknown_ingredient :
  let item :=
    processIngredient
      {| raw_name := lit "exotic_unknown_ingredient_xyz";
         raw_confidence := Some (Fin 0.5) |} in
  same_numberb (carbon_kg item) (Fin 2.0) = true
  /\ same_numberb (confidence item) (Fin 0.4) = true.
Proof. by_computation. Qed.

Example test_normalized_names :
  normalizeIngredientName (lit "CHICKEN  BREAST   ") = lit "chicken breast"
  /\ normalizeIngredientName (lit "fresh organic rice") = lit "rice"
  /\ carbonValue {| raw_name := lit "CHICKEN  BREAST   ";
                    raw_confidence := Some (Fin 0.9) |} = VNumber (Fin 6.9)
  /\ carbonValue {| raw_name := lit "fresh organic rice";
                    raw_confidence := Some (Fin 0.8) |} = VNumber (Fin 4.0).
Proof. by_computation. Qed.

Example test_valid_dish :
  validateTextEstimation (Some (dish_body (lit "Chicken Biryani")))
  = next (dish_body (lit "Chicken Biryani")).
Proof. vm_compute. reflexivity. Qed.

Example test_international_dishes :
  validateTextEstimation (Some (dish_body (lit "Caf" ++ [0xE9%N] ++ lit " au lait")))
  = next (dish_body (lit "Caf" ++ [0xE9%N] ++ lit " au lait"))
  /\ validateTextEstimation
       (Some (dish_body [0x4E2D%N; 0x534E%N; 0x6599%N; 0x7406%N]))
     = next (dish_body [0x4E2D%N; 0x534E%N; 0x6599%N; 0x7406%N]).
Proof. by_computation. Qed.

Example test_rejected_dishes :
  validateTextEstimation (Some (dish_body [])) = dish_rejected string_empty
  /\ validateTextEstimation (Some (dish_body (lit "SELECT * FROM users")))
     = dish_rejected string_pattern_base
  /\ validateTextEstimation (Some (dish_body (lit "javascript:alert(1)")))
     = dish_rejected string_pattern_base
  /\ validateTextEstimation (Some (dish_body (lit "../../../etc/passwd")))
     = dish_rejected string_pattern_base
  /\ validateTextEstimation (Some (dish_body (lit "__proto__.polluted = true")))
     = dish_rejected string_pattern_base
  /\ validateTextEstimation (Some (dish_body (repeat 65%N 100)))
     = dish_rejected string_repeated
  /\ validateTextEstimation (Some (dish_body (repeat 65%N 10000)))
     = throw BodyTooLarge NoDetails.
Proof. by_computation. Qed.

Example test_uploads :
  validateImageUpload 10 (Some (jpeg_upload "image/jpeg")) = next tt
  /\ validateImageUpload 10 None = throw NoImageFile NoDetails
  /\ validateImageUpload 10
       (Some {| buffer := Some (repeat Byte.x00 200);
                mimetype := lit "application/pdf";
                size := 200;
                originalname := Some (lit "test.pdf") |})
     = throw InvalidFileType (Received (lit "application/pdf"))
  /\ List.map (fun n =>
                 validateImageUpload 10
                   (Some {| buffer := Some ([Byte.xff; Byte.xd8; Byte.xff; Byte.xe0]
                                            ++ repeat Byte.x00 200);
                            mimetype := lit "image/jpeg";
                            size := 204;
                            originalname := Some (lit n) |}))
              ["malware.exe"; "script.js"; "hack.php"; "virus.bat"]%string
     = repeat (throw InvalidExtension NoDetails) 4
  /\ validateImageUpload 10
       (Some {| buffer := Some (repeat Byte.x00 204);
                mimetype := lit "image/jpeg";
                size := 204;
                originalname := Some (lit "fake.jpg") |})
     = throw HeaderMismatch NoDetails.
Proof. by_computation. Qed.

(* ================================================================== *)
(** ** More on the normalizer and the sanitizer *)
(* ================================================================== *)

Lemma trimEnd_last a c : trimEnd (a ++ [c]) = a ++ [c] -> is_space c = false.
Proof.
  induction a as [|x a IH]; intros H.
  - apply trimEnd_fixed_cons in H. destruct H as [H _].
    cbn [forallb] in H. rewrite andb_true_r in H. exact H.
  - change ((x :: a) ++ [c]) with (x :: (a ++ [c])) in H.
    apply trimEnd_fixed_cons in H. apply IH. tauto.
Qed.

(** X1: a normalized name is made of lower-case letters, digits and
    spaces only, and neither begins nor ends with a space. *)
Theorem normalize_alphabet_and_ends (x : jsstring) :
  forallb plain (normalizeIngredientName x) = true
  /\ (forall c t, normalizeIngredientName x = c :: t -> c <> space)
  /\ (forall a c, normalizeIngredientName x = a ++ [c] -> c <> space).
Proof.
  split; [apply normalize_plain|].
  destruct (@trim_fixed_parts _ (normalize_trimmed x)) as [S E].
  split.
  - intros c t H. rewrite H in S. cbn [trimStart] in S.
    destruct (is_space c) eqn:C; [|intros ->; discriminate].
    exfalso. pose proof (trimStart_head t) as Hd. rewrite S in Hd. congruence.
  - intros a c H. rewrite H in E. apply trimEnd_last in E.
    intros ->. discriminate.
Qed.

Lemma quiet_after p a r : quiet p (a ++ r) = true -> quiet (class_after p a) r = true.
Proof.
  revert p; induction a as [|c a IH]; intros p H; [exact H|].
  change ((c :: a) ++ r) with (c :: (a ++ r)) in H. cbn [quiet] in H.
  destruct (match_qualifier p (c :: a ++ r)); [discriminate|].
  unfold class_after. cbn [fold_left]. apply IH. exact H.
Qed.

Lemma class_after_true p a :
  class_after p a = true ->
  (a = [] /\ p = true) \/ exists a' c, a = a' ++ [c] /\ is_word c = true.
Proof.
  revert p; induction a as [|x a IH]; intros p H; [left; auto|].
  right. unfold class_after in H. cbn [fold_left] in H.
  destruct (IH (is_word x) H) as [[-> Hp] | (a' & c & -> & Hc)].
  - exists [], x. auto.
  - exists (x :: a'), c. auto.
Qed.

Lemma wordrun_word_prefix q b :
  forallb is_word q = true ->
  match b with [] => True | c :: _ => is_word c = false end ->
  wordrun (q ++ b) = q.
Proof.
  intros Hq Hb. induction q as [|x q IH].
  - destruct b as [|c b]; [reflexivity|]. cbn [app wordrun]. rewrite Hb. reflexivity.
  - cbn [forallb] in Hq. apply andb_true_iff in Hq. destruct Hq as [Hx Hq].
    cbn [app wordrun]. rewrite Hx, IH; auto.
Qed.

(** X2: no qualifier is left standing as a word of its own in a
    normalized name: wherever one of the six words occurs, the code
    unit before it or the one after it is a letter or a digit. *)
Theorem normalize_no_standalone_qualifier (x a q b : jsstring) :
  In q qualifiers ->
  normalizeIngredientName x = a ++ q ++ b ->
  (exists a' c, a = a' ++ [c] /\ is_word c = true)
  \/ (exists c b', b = c :: b' /\ is_word c = true).
Proof.
  intros Hq E. pose proof (normalize_quiet x) as Q. rewrite E in Q.
  apply quiet_after in Q.
  destruct (class_after false a) eqn:C.
  - left. destruct (@class_after_true false a C) as [[_ F] | H]; [discriminate | exact H].
  - destruct (@qualifier_facts q Hq) as [W L].
    destruct b as [|c b'].
    + exfalso. destruct q as [|y q]; [simpl in L; lia|].
      cbn [app quiet] in Q.
      destruct (match_qualifier false (y :: q ++ [])) eqn:M; [discriminate|].
      apply match_qualifier_none_iff in M. cbn [orb] in M.
      apply negb_true_iff in M. unfold qualifier_run in M.
      change (y :: q ++ []) with ((y :: q) ++ []) in M.
      rewrite wordrun_word_prefix in M by auto.
      assert (T : existsb (str_eqb (y :: q)) qualifiers = true)
        by (apply existsb_exists; exists (y :: q); split; [exact Hq | apply str_eqb_refl]).
      congruence.
    + destruct (is_word c) eqn:Wc; [right; eauto|].
      exfalso. destruct q as [|y q]; [simpl in L; lia|].
      cbn [app quiet] in Q.
      destruct (match_qualifier false (y :: q ++ c :: b')) eqn:M; [discriminate|].
      apply match_qualifier_none_iff in M. cbn [orb] in M.
      apply negb_true_iff in M. unfold qualifier_run in M.
      change (y :: q ++ c :: b') with ((y :: q) ++ c :: b') in M.
      rewrite wordrun_word_prefix in M by auto.
      assert (T : existsb (str_eqb (y :: q)) qualifiers = true)
        by (apply existsb_exists; exists (y :: q); split; [exact Hq | apply str_eqb_refl]).
      congruence.
Qed.

Lemma normalize_no_standalone_qualifier_witness :
  In (lit "raw") qualifiers
  /\ normalizeIngredientName (lit "Strawberry jam") = lit "st" ++ lit "raw" ++ lit "berry jam"
  /\ ((exists a' c, lit "st" = a' ++ [c] /\ is_word c = true)
      \/ (exists c b', lit "berry jam" = c :: b' /\ is_word c = true)).
Proof.
  assert (H1 : In (lit "raw") qualifiers) by (vm_compute; tauto).
  assert (H2 : normalizeIngredientName (lit "Strawberry jam")
               = lit "st" ++ lit "raw" ++ lit "berry jam") by (vm_compute; reflexivity).
  split; [exact H1|]. split; [exact H2|].
  exact (@normalize_no_standalone_qualifier (lit "Strawberry jam") (lit "st") (lit "raw") (lit "berry jam") H1 H2).
Defined.

(** X3: a second pass of the normalizer only collapses runs of spaces,
    and a third pass changes nothing: the normalizer is stable from the
    second pass on, for every string. *)
Theorem normalize_second_pass_collapses (x : jsstring) :
  normalizeIngredientName (normalizeIngredientName x)
  = collapse_ws false (normalizeIngredientName x)
  /\ adjacent_spaces (normalizeIngredientName (normalizeIngredientName x)) = false
  /\ normalizeIngredientName (normalizeIngredientName (normalizeIngredientName x))
     = normalizeIngredientName (normalizeIngredientName x).
Proof.
  split; [apply normalize_twice_collapse|]. split; [|apply normalize_stable].
  apply normalize_idempotent_iff, normalize_stable.
Qed.

Lemma lower_unit_fold_case c : lower_unit (fold_case c) = lower_unit c.
Proof.
  unfold fold_case. destruct (is_upper c) eqn:U; [|reflexivity].
  unfold lower_unit. rewrite U.
  assert (E0 : is_upper (c + 32) = false) by class_lia.
  assert (E1 : (c + 32 =? 0x130)%N = false) by class_lia.
  assert (E2 : (c + 32 =? 0x212A)%N = false) by class_lia.
  rewrite E0, E1, E2. reflexivity.
Qed.

Lemma toLowerCase_fold_case x : toLowerCase (List.map fold_case x) = toLowerCase x.
Proof.
  unfold toLowerCase. induction x as [|c x IH]; [reflexivity|].
  cbn [List.map flat_map]. rewrite lower_unit_fold_case, IH. reflexivity.
Qed.

(** X4: names that differ in the case of ASCII letters only have the
    same normalized form. *)
Theorem normalize_ignores_ascii_case (x y : jsstring) :
  List.map fold_case x = List.map fold_case y ->
  normalizeIngredientName x = normalizeIngredientName y.
Proof.
  intros H. unfold normalizeIngredientName.
  rewrite <- (toLowerCase_fold_case x), <- (toLowerCase_fold_case y), H.
  reflexivity.
Qed.

Lemma normalize_ignores_ascii_case_witness :
  List.map fold_case (lit "Olive OIL") = List.map fold_case (lit "oLIVE oil")
  /\ normalizeIngredientName (lit "Olive OIL") = normalizeIngredientName (lit "oLIVE oil").
Proof.
  assert (H : List.map fold_case (lit "Olive OIL") = List.map fold_case (lit "oLIVE oil"))
    by (vm_compute; reflexivity).
  split; [exact H | exact (@normalize_ignores_ascii_case _ _ H)].
Defined.

Lemma trimStart_length s : List.length (trimStart s) <= List.length s.
Proof.
  induction s as [|c t IH]; [apply Nat.le_refl|].
  cbn [trimStart]. destruct (is_space c); simpl; [lia | apply Nat.le_refl].
Qed.

Lemma trimEnd_length s : List.length (trimEnd s) <= List.length s.
Proof.
  induction s as [|c t IH]; [apply Nat.le_refl|].
  cbn [trimEnd]. destruct (forallb is_space (c :: t)); simpl; lia.
Qed.

Lemma trim_length s : List.length (trim s) <= List.length s.
Proof.
  unfold trim. pose proof (trimEnd_length (trimStart s)). pose proof (trimStart_length s). lia.
Qed.

Lemma filter_all {A : Type} (f : A -> bool) (l : list A) :
  forallb f l = true -> filter f l = l.
Proof.
  induction l as [|a l IH]; [reflexivity|].
  cbn [forallb filter]. intros H. apply andb_true_iff in H. destruct H as [Ha Hl].
  rewrite Ha, IH; auto.
Qed.

Lemma In_firstn {A : Type} (n : nat) (l : list A) (x : A) :
  In x (firstn n l) -> In x l.
Proof.
  intros H. rewrite <- (firstn_skipn n l). apply in_or_app. left. exact H.
Qed.

(** X5: the sanitized text has at most 200 code units and neither [<]
    nor [>] in it; on a text without these two characters whose
    trimmed form has at most 200 code units sanitizing is trimming. *)
Theorem sanitize_bounds (input : jsstring) :
  List.length (sanitizeTextInput input) <= 200
  /\ ~ In 60%N (sanitizeTextInput input)
  /\ ~ In 62%N (sanitizeTextInput input)
  /\ (forallb (fun c => negb ((c =? 60)%N || (c =? 62)%N)) input = true ->
      List.length (trim input) <= 200 ->
      sanitizeTextInput input = trim input).
Proof.
  unfold sanitizeTextInput, slice0.
  assert (F : forall c,
             In c (firstn 200 (filter (fun c => negb ((c =? 60)%N || (c =? 62)%N))
                                      (trim input))) ->
             negb ((c =? 60)%N || (c =? 62)%N) = true).
  { intros c H. apply In_firstn in H. apply filter_In in H. tauto. }
  split; [apply firstn_le_length|].
  split; [intros H; apply F in H; discriminate|].
  split; [intros H; apply F in H; discriminate|].
  intros A L. rewrite filter_all by (apply trim_forallb; exact A).
  apply firstn_all2. exact L.
Qed.

(* ================================================================== *)
(** ** More on the matcher *)
(* ================================================================== *)

Lemma strip_prefix_refl k : strip_prefix k k = Some [].
Proof.
  induction k as [|c k IH]; [reflexivity|].
  cbn [strip_prefix]. rewrite N.eqb_refl. exact IH.
Qed.

Lemma includes_refl k : includes k k = true.
Proof.
  destruct k as [|c k]; cbn [includes]; unfold startsWith;
    rewrite strip_prefix_refl; reflexivity.
Qed.

Lemma includes_length s w : includes s w = true -> List.length w <= List.length s.
Proof.
  induction s as [|c s IH]; cbn [includes]; unfold startsWith.
  - destruct (strip_prefix w []) as [rest|] eqn:E; [|discriminate].
    intros _. apply strip_prefix_app in E. rewrite E, length_app. lia.
  - destruct (strip_prefix w (c :: s)) as [rest|] eqn:E.
    + intros _. apply strip_prefix_app in E. rewrite E, length_app. lia.
    + cbn [orb]. intros H. apply IH in H. simpl. lia.
Qed.

Lemma reduce_longer_max l a x :
  In x (a :: l) -> List.length x <= List.length (fold_left longer l a).
Proof.
  intros H. destruct (reduce_longer l a) as (before & after & E & B & A).
  assert (H' : In x (before ++ fold_left longer l a :: after))
    by (rewrite <- E; exact H).
  clear H. apply in_app_or in H'. destruct H' as [H | [<- | H]].
  - apply B, H.
  - apply Nat.le_refl.
  - apply Nat.lt_le_incl, A, H.
Qed.

Lemma reduce_longer_In l a : In (fold_left longer l a) (a :: l).
Proof.
  destruct (reduce_longer l a) as (before & after & E & _).
  rewrite E. apply in_or_app. right. left. reflexivity.
Qed.

(** The second rule, for any table: what it returns when it is reached
    with some key retained. *)
Lemma substring_rule (database : table) (name K : jsstring) :
  truthy (get database (normalizeIngredientName name)) = false ->
  In K (partialMatches (normalizeIngredientName name) database) ->
  exists R,
    findBestIngredientMatch name database
    = Some {| key := R; Helpers.confidence := Fin 0.8 |}
    /\ In R (keys database)
    /\ List.length K <= List.length R.
Proof.
  intros T I. unfold findBestIngredientMatch. rewrite T.
  change (filter (partial_match (normalizeIngredientName name)) (keys database))
    with (partialMatches (normalizeIngredientName name) database).
  destruct (partialMatches (normalizeIngredientName name) database)
    as [|first others] eqn:P; [destruct I|].
  exists (fold_left longer others first).
  split; [reflexivity|]. split.
  - pose proof (reduce_longer_In others first) as R. rewrite <- P in R.
    unfold partialMatches in R. apply filter_In in R. tauto.
  - apply reduce_longer_max, I.
Qed.

(** X6: an entry whose value is 0 is not found by the first rule, which
    tests the value and not the presence of the key: the name of such an
    entry is matched by the substring rule, with confidence 0.8, to a key
    that has it as a substring, and never with confidence 1.0. *)
Theorem zero_valued_entry_is_not_exact (database : table) (k : jsstring) (v : number) :
  normalizeIngredientName k = k ->
  own database k = Some v ->
  number_truthy v = false ->
  exists R,
    findBestIngredientMatch k database
    = Some {| key := R; Helpers.confidence := Fin 0.8 |}
    /\ In R (keys database)
    /\ List.length k <= List.length R.
Proof.
  intros N O F. apply substring_rule.
  - rewrite N. unfold get. rewrite O. exact F.
  - rewrite N. unfold partialMatches. apply filter_In. split.
    + apply own_In in O. apply (in_map fst) in O. exact O.
    + unfold partial_match. rewrite includes_refl. reflexivity.
Qed.

Lemma zero_valued_entry_is_not_exact_witness :
  let database := [entry "water" 0; entry "water ice" 1.2] in
  normalizeIngredientName (lit "water") = lit "water"
  /\ own database (lit "water") = Some (Fin 0)
  /\ number_truthy (Fin 0) = false
  /\ exists R,
       findBestIngredientMatch (lit "water") database
       = Some {| key := R; Helpers.confidence := Fin 0.8 |}
       /\ In R (keys database)
       /\ List.length (lit "water") <= List.length R.
Proof.
  intros database.
  assert (H1 : normalizeIngredientName (lit "water") = lit "water")
    by (vm_compute; reflexivity).
  assert (H2 : own database (lit "water") = Some (Fin 0)) by (vm_compute; reflexivity).
  assert (H3 : number_truthy (Fin 0) = false) by (vm_compute; reflexivity).
  split; [exact H1|]. split; [exact H2|]. split; [exact H3|].
  exact (@zero_valued_entry_is_not_exact database (lit "water") (Fin 0) H1 H2 H3).
Defined.

(** X7: a name whose normalized form contains a key of the table never
    gets the fallback: the confidence is 1.0 or 0.8, and the key
    returned is at least as long as the key contained.  This holds for
    any table. *)
Theorem contained_key_is_matched (database : table) (name K : jsstring) :
  In K (keys database) ->
  includes (normalizeIngredientName name) K = true ->
  exists m,
    findBestIngredientMatch name database = Some m
    /\ List.length K <= List.length (key m)
    /\ (Helpers.confidence m = Fin 1.0 \/ Helpers.confidence m = Fin 0.8).
Proof.
  intros I C.
  destruct (truthy (get database (normalizeIngredientName name))) eqn:T.
  - eexists. split; [unfold findBestIngredientMatch; rewrite T; reflexivity|].
    cbn [key Helpers.confidence]. split; [apply includes_length, C | left; reflexivity].
  - destruct (@substring_rule database name K T) as (R & E & _ & L).
    + unfold partialMatches. apply filter_In. split; [exact I|].
      unfold partial_match. rewrite C. reflexivity.
    + exists {| key := R; Helpers.confidence := Fin 0.8 |}.
      split; [exact E|]. split; [exact L | right; reflexivity].
Qed.

Lemma contained_key_is_matched_witness :
  In (lit "chicken") (keys CARBON_FOOTPRINT_DB)
  /\ includes (normalizeIngredientName (lit "Grilled CHICKEN breast")) (lit "chicken") = true
  /\ exists m,
       findBestIngredientMatch (lit "Grilled CHICKEN breast") CARBON_FOOTPRINT_DB = Some m
       /\ List.length (lit "chicken") <= List.length (key m)
       /\ (Helpers.confidence m = Fin 1.0 \/ Helpers.confidence m = Fin 0.8).
Proof.
  assert (H1 : In (lit "chicken") (keys CARBON_FOOTPRINT_DB))
    by (vm_compute; do 3 right; left; reflexivity).
  assert (H2 : includes (normalizeIngredientName (lit "Grilled CHICKEN breast"))
                        (lit "chicken") = true) by (vm_compute; reflexivity).
  split; [exact H1|]. split; [exact H2|].
  exact (@contained_key_is_matched CARBON_FOOTPRINT_DB (lit "Grilled CHICKEN breast")
           (lit "chicken") H1 H2).
Defined.

(** The three confidences of the matcher. *)
Lemma matcher_confidence (database : table) (name : jsstring) (m : Match) :
  findBestIngredientMatch name database = Some m ->
  Helpers.confidence m = Fin 1.0 \/ Helpers.confidence m = Fin 0.8
  \/ Helpers.confidence m = Fin 0.3.
Proof.
  unfold findBestIngredientMatch.
  destruct (truthy (get database (normalizeIngredientName name))).
  - intros H; injection H as <-. auto.
  - destruct (filter _ (keys database)); intros H; injection H as <-; auto.
Qed.

(* ================================================================== *)
(** ** More on the aggregator *)
(* ================================================================== *)

Lemma table_values_check :
  forallb (fun kv => match snd kv with
                     | Fin q => negb (Qle_bool q 0)
                                && Qeq_bool q (Qfloor (q * 100) # 100)
                     | NaN => false
                     end)
          CARBON_FOOTPRINT_DB = true.
Proof. vm_compute. reflexivity. Qed.

Lemma table_value_positive k v :
  In (k, v) CARBON_FOOTPRINT_DB ->
  exists q, v = Fin q /\ (0 < q)%Q /\ hundredths v.
Proof.
  intros H. pose proof table_values_check as C.
  rewrite forallb_forall in C. specialize (C (k, v) H). cbn [snd] in C.
  destruct v as [q|]; [|discriminate].
  apply andb_true_iff in C. destruct C as [C1 C2].
  exists q. split; [reflexivity|]. split.
  - apply Qnot_le_lt. intros L. apply Qle_bool_iff in L. rewrite L in C1. discriminate.
  - exists (Qfloor (q * 100)). apply Qeq_bool_iff in C2. exact C2.
Qed.

Lemma hundredths_same a b : same_number a b -> hundredths a -> hundredths b.
Proof.
  intros S [z H]. exists z.
  eapply same_number_trans; [apply same_number_sym; exact S | exact H].
Qed.

Lemma hundredths_nadd a b : hundredths a -> hundredths b -> hundredths (nadd a b).
Proof.
  intros [x Hx] [y Hy]. exists (x + y)%Z.
  destruct a as [p|], b as [q|]; simpl in *; try tauto.
  rewrite Hx, Hy. unfold Qeq, Qplus. cbn [Qnum Qden]. lia.
Qed.

Lemma hundredths_sum xs : Forall hundredths xs -> hundredths (sum_of xs).
Proof.
  induction 1 as [|x xs Hx _ IH].
  - exists 0%Z. simpl. reflexivity.
  - cbn [sum_of fold_right]. apply hundredths_nadd; assumption.
Qed.

(** Rounding to two decimals leaves a whole count of hundredths as it is. *)
Lemma hundredths_round2 a : hundredths a -> same_number (round2 a) a.
Proof.
  intros [z H]. destruct a as [q|]; [|exact I]. simpl in H.
  unfold round2, ndiv, Math_round, nmul, same_number.
  assert (E : Qfloor (q * 100 + (1 # 2)) = z).
  { rewrite (Qfloor_comp (q * 100 + (1 # 2)) ((2 * z + 1) # 2)).
    - unfold Qfloor. symmetry. apply (Z.div_unique (2 * z + 1) 2 z 1); lia.
    - rewrite H. unfold Qeq, Qplus, Qmult. cbn [Qnum Qden]. lia. }
  rewrite E, H. unfold Qeq, Qdiv, Qmult, Qinv, inject_Z. cbn [Qnum Qden]. lia.
Qed.

Lemma nonnegative_same a b : same_number a b -> nonnegative a -> nonnegative b.
Proof.
  destruct a, b; simpl; try tauto. intros E H. rewrite <- E. exact H.
Qed.

Lemma nonnegative_nadd a b : nonnegative a -> nonnegative b -> nonnegative (nadd a b).
Proof.
  destruct a as [p|], b as [q|]; simpl; try tauto.
  intros Hp Hq. rewrite <- (Qplus_0_l 0). apply Qplus_le_compat; assumption.
Qed.

Lemma nonnegative_sum xs : Forall nonnegative xs -> nonnegative (sum_of xs).
Proof.
  induction 1 as [|x xs Hx _ IH].
  - simpl. apply Qle_refl.
  - cbn [sum_of fold_right]. apply nonnegative_nadd; assumption.
Qed.

(** X8: unless its name normalizes to [constructor], an ingredient is
    resolved to a line item that keeps the name, and whose carbon value
    is the value of some entry of the table, which is positive. *)
Theorem line_item_is_table_entry (raw : RawIngredient) :
  normalizeIngredientName (raw_name raw) <> lit "constructor" ->
  name (processIngredient raw) = raw_name raw
  /\ exists k q,
       In (k, Fin q) CARBON_FOOTPRINT_DB
       /\ same_number (carbon_kg (processIngredient raw)) (Fin q)
       /\ (0 < q)%Q.
Proof.
  intros NC. split; [reflexivity|].
  destruct (@carbon_kg_from_table raw NC) as (k & v & I & _ & S).
  destruct (@table_value_positive _ _ I) as (q & -> & P & _).
  exists k, q. split; [exact I|]. split; [exact S | exact P].
Qed.

Lemma line_item_is_table_entry_witness :
  let raw := {| raw_name := lit "Fresh Tomatoes (diced)"; raw_confidence := None |} in
  normalizeIngredientName (raw_name raw) <> lit "constructor"
  /\ exists k q,
       In (k, Fin q) CARBON_FOOTPRINT_DB
       /\ same_number (carbon_kg (processIngredient raw)) (Fin q)
       /\ (0 < q)%Q.
Proof.
  intros raw.
  assert (H : normalizeIngredientName (raw_name raw) <> lit "constructor")
    by (vm_compute; discriminate).
  split; [exact H|].
  exact (proj2 (@line_item_is_table_entry raw H)).
Defined.

Lemma line_items_facts (raws : list RawIngredient) :
  (forall raw, In raw raws ->
     normalizeIngredientName (raw_name raw) <> lit "constructor") ->
  Forall hundredths (List.map carbon_kg (List.map processIngredient raws))
  /\ Forall nonnegative (List.map carbon_kg (List.map processIngredient raws)).
Proof.
  intros H. induction raws as [|raw raws IH]; [split; constructor|].
  destruct IH as [IH1 IH2]; [intros r Hr; apply H; right; exact Hr|].
  destruct (@carbon_kg_from_table raw (H raw (or_introl eq_refl))) as (k & v & I & _ & S).
  destruct (@table_value_positive _ _ I) as (q & -> & P & Hh).
  cbn [List.map]. split; constructor; try assumption.
  - apply (@hundredths_same _ _ (@same_number_sym _ _ S)), Hh.
  - apply (@nonnegative_same _ _ (@same_number_sym _ _ S)). simpl. apply Qlt_le_weak, P.
Qed.

Lemma total_exact (raws : list RawIngredient) :
  (forall raw, In raw raws ->
     normalizeIngredientName (raw_name raw) <> lit "constructor") ->
  same_number (round2 (totalCarbon (List.map processIngredient raws)))
              (sum_of (List.map carbon_kg (List.map processIngredient raws))).
Proof.
  intros H. destruct (@line_items_facts raws H) as [Hh _].
  eapply same_number_trans; [apply round2_same, totalCarbon_sum|].
  apply hundredths_round2, hundredths_sum, Hh.
Qed.

Lemma constructor_item_is_NaN (raw : RawIngredient) :
  normalizeIngredientName (raw_name raw) = lit "constructor" ->
  carbon_kg (processIngredient raw) = NaN.
Proof.
  intros H. cbn [processIngredient carbon_kg].
  unfold carbonValue, mapping. rewrite H. vm_compute. reflexivity.
Qed.

Lemma constructor_among (raws : list RawIngredient) :
  (exists raw, In raw raws
               /\ normalizeIngredientName (raw_name raw) = lit "constructor")
  \/ (forall raw, In raw raws ->
        normalizeIngredientName (raw_name raw) <> lit "constructor").
Proof.
  induction raws as [|r raws [(raw & I & E) | IH]].
  - right. intros raw [].
  - left. exists raw. split; [right; exact I | exact E].
  - destruct (str_eqb (normalizeIngredientName (raw_name r)) (lit "constructor")) eqn:E.
    + left. exists r. split; [left; reflexivity | apply str_eqb_eq; exact E].
    + right. intros raw [<- | I]; [apply str_eqb_neq; exact E | apply IH; exact I].
Qed.

(** X9: the total of an estimate is no number exactly when the name of
    some ingredient normalizes to [constructor]; in every other case it
    is a number that is not negative. *)
Theorem estimate_is_no_number_iff
    (dishName : jsstring) (raws : list RawIngredient) (source : Source)
    (processingTimeMs : option number) (calculationDuration : number) :
  let result :=
    calculateCarbonFootprint dishName raws source processingTimeMs calculationDuration in
  (estimated_carbon_kg result = NaN
   <-> exists raw, In raw raws
                   /\ normalizeIngredientName (raw_name raw) = lit "constructor")
  /\ (forall t, estimated_carbon_kg result = Fin t -> (0 <= t)%Q).
Proof.
  cbn zeta. unfold calculateCarbonFootprint. cbn [estimated_carbon_kg].
  assert (P : (forall raw, In raw raws ->
                 normalizeIngredientName (raw_name raw) <> lit "constructor") ->
              nonnegative (round2 (totalCarbon (List.map processIngredient raws)))).
  { intros H. pose proof (@total_exact raws H) as T.
    destruct (@line_items_facts raws H) as [_ Hn].
    apply (@nonnegative_same _ _ (@same_number_sym _ _ T)), nonnegative_sum, Hn. }
  assert (Q : (exists raw, In raw raws
                 /\ normalizeIngredientName (raw_name raw) = lit "constructor") ->
              round2 (totalCarbon (List.map processIngredient raws)) = NaN).
  { intros (raw & I & E). apply aggregation_NaN.
    rewrite <- (constructor_item_is_NaN raw E).
    apply in_map, in_map, I. }
  split; [split|].
  - intros E. destruct (constructor_among raws) as [X | X]; [exact X|].
    specialize (P X). rewrite E in P. destruct P.
  - exact Q.
  - intros t E. destruct (constructor_among raws) as [X | X].
    + rewrite (Q X) in E. discriminate.
    + specialize (P X). rewrite E in P. exact P.
Qed.

Lemma round2_unit q :
  (0 <= q <= 1)%Q -> exists r, round2 (Fin q) = Fin r /\ (0 <= r <= 1)%Q.
Proof.
  intros [L U]. unfold round2, ndiv, Math_round, nmul.
  eexists. split; [reflexivity|].
  assert (F0 : (Qfloor 0 <= Qfloor (q * 100 + (1 # 2)))%Z).
  { apply Qfloor_resp_le. destruct q as [n d].
    unfold Qle, Qplus, Qmult in *. cbn [Qnum Qden] in *. lia. }
  assert (F1 : (Qfloor (q * 100 + (1 # 2)) <= Qfloor (201 # 2))%Z).
  { apply Qfloor_resp_le. destruct q as [n d].
    unfold Qle, Qplus, Qmult in *. cbn [Qnum Qden] in *. lia. }
  change (Qfloor 0) with 0%Z in F0. change (Qfloor (201 # 2)) with 100%Z in F1.
  generalize dependent (Qfloor (q * 100 + (1 # 2))). intros z F0 F1.
  unfold Qle, Qdiv, Qmult, Qinv, inject_Z. cbn. lia.
Qed.

Lemma or_default_unit c :
  unit_confidence c -> exists q, or_default c (Fin 0.8) = Fin q /\ (0 <= q <= 1)%Q.
Proof.
  destruct c as [[q|]|]; cbn [unit_confidence or_default]; try tauto.
  - intros H. destruct (number_truthy (Fin q)).
    + exists q. auto.
    + exists 0.8%Q. split; [reflexivity|]. split; discriminate.
  - intros _. exists 0.8%Q. split; [reflexivity|]. split; discriminate.
Qed.

(** X11: when the confidence that comes with an ingredient is absent or
    lies between 0 and 1, the confidence of its line item lies between
    0 and 1, whatever the name. *)
Theorem line_item_confidence_in_unit_interval (raw : RawIngredient) :
  unit_confidence (raw_confidence raw) ->
  exists r, confidence (processIngredient raw) = Fin r /\ (0 <= r <= 1)%Q.
Proof.
  intros H. cbn [processIngredient confidence].
  destruct (blend_formula raw) as (m & M & ->).
  destruct (@or_default_unit _ H) as ([n d] & -> & L & U).
  destruct (@matcher_confidence _ _ _ M) as [-> | [-> | ->]];
    cbn [nmul]; apply round2_unit;
    unfold Qle, Qmult in *; cbn [Qnum Qden] in *; lia.
Qed.

Lemma line_item_confidence_in_unit_interval_witness :
  unit_confidence (raw_confidence qualifiers_only)
  /\ exists r, confidence (processIngredient qualifiers_only) = Fin r /\ (0 <= r <= 1)%Q.
Proof.
  assert (H : unit_confidence (raw_confidence qualifiers_only))
    by (vm_compute; split; discriminate).
  split; [exact H | exact (@line_item_confidence_in_unit_interval qualifiers_only H)].
Defined.

(** X12: with a finite time already spent, the time reported is that
    time plus the duration of the calculation, rounded to a whole
    number of milliseconds; a time already spent of 0, which takes the
    other branch, gives the same. *)
Theorem processing_time_adds
    (dishName : jsstring) (raws : list RawIngredient) (source : Source) (t d : Q) :
  let result :=
    calculateCarbonFootprint dishName raws source (Some (Fin t)) (Fin d) in
  same_number (processing_time_ms (metadata result))
              (Fin (inject_Z (Qfloor (t + d + (1 # 2)))))
  /\ CarbonService.source (metadata result) = source.
Proof.
  cbn zeta. unfold calculateCarbonFootprint.
  cbn [metadata processing_time_ms CarbonService.source].
  split; [|reflexivity].
  cbn [number_truthy]. destruct (Qeq_bool t 0) eqn:Z; cbn [negb].
  - apply Qeq_bool_iff in Z. cbn [Math_round same_number].
    rewrite (Qfloor_comp (d + (1 # 2)) (t + d + (1 # 2))); [reflexivity|].
    rewrite Z. ring.
  - cbn [nadd Math_round same_number]. reflexivity.
Qed.

(* ================================================================== *)
(** ** More on the text route *)
(* ================================================================== *)

Lemma dish_char_not_angle c :
  dish_char c = true -> negb ((c =? 60)%N || (c =? 62)%N) = true.
Proof.
  intros H. destruct (c =? 60)%N eqn:A.
  - apply N.eqb_eq in A. subst c. vm_compute in H. discriminate.
  - destruct (c =? 62)%N eqn:B; [|reflexivity].
    apply N.eqb_eq in B. subst c. vm_compute in H. discriminate.
Qed.

(** On a value of the character class that is not too long the
    sanitizer only trims. *)
Lemma sanitize_allowed s :
  forallb dish_char s = true -> List.length s <= 200 ->
  sanitizeTextInput s = trim s.
Proof.
  intros A L. unfold sanitizeTextInput, slice0.
  rewrite filter_all.
  - apply firstn_all2. pose proof (trim_length s). lia.
  - apply forallb_forall. intros c Hc. apply dish_char_not_angle.
    pose proof (trim_forallb dish_char s A) as T.
    rewrite forallb_forall in T. apply T, Hc.
Qed.

Lemma rules_none s :
  run_rules dish_rules s = None ->
  List.length s <= 200 /\ forallb dish_char s = true /\ trim s <> []
  /\ malicious s = false /\ repeatedChars s = false.
Proof.
  unfold dish_rules. cbn [run_rules]. unfold min, max, matching, custom, dish_pattern.
  destruct (List.length s <? 1); [discriminate|].
  destruct (200 <? List.length s) eqn:L; [discriminate|].
  destruct s as [|c t]; [discriminate|].
  destruct (forallb dish_char (c :: t)); [|discriminate].
  destruct (List.length (trim (c :: t)) =? 0) eqn:T; [discriminate|].
  destruct (malicious (c :: t)); [discriminate|].
  destruct (repeatedChars (c :: t)); [discriminate|].
  intros _. apply Nat.ltb_ge in L. apply Nat.eqb_neq in T.
  repeat match goal with |- _ /\ _ => split end; auto.
  intros E. rewrite E in T. apply T. reflexivity.
Qed.

Lemma filter_nil {A : Type} (f : A -> bool) (l : list A) :
  filter f l = [] -> forall x, In x l -> f x = false.
Proof.
  induction l as [|a l IH]; [intros _ x []|].
  cbn [filter]. destruct (f a) eqn:E; [discriminate|].
  intros H x [<- | Hx]; auto.
Qed.

(** The copy that Joi validates has every own property of the body
    but [__proto__]. *)
Lemma field_clone_own (fields : list (jsstring * json)) (k : jsstring) :
  k <> lit "__proto__" -> field k (clone_own fields) = field k fields.
Proof.
  intros NE. induction fields as [|[k' v'] rest IH]; [reflexivity|].
  cbn [clone_own filter fst]. fold (clone_own rest).
  destruct (str_eqb k' (lit "__proto__")) eqn:E; cbn [negb field].
  - apply str_eqb_eq in E. subst k'.
    apply str_eqb_neq in NE. rewrite NE. exact IH.
  - destruct (str_eqb k k'); [reflexivity | exact IH].
Qed.

Lemma keys_clone_own (fields : list (jsstring * json)) (k : jsstring) :
  In k (List.map fst fields) ->
  k = lit "__proto__" \/ In k (List.map fst (clone_own fields)).
Proof.
  induction fields as [|[k' v'] rest IH]; [intros []|].
  cbn [List.map fst clone_own filter]. fold (clone_own rest).
  destruct (str_eqb k' (lit "__proto__")) eqn:E; cbn [negb List.map fst In].
  - apply str_eqb_eq in E. subst k'. intros [<- | H]; [left; reflexivity | auto].
  - intros [<- | H]; [right; left; reflexivity|].
    destruct (IH H) as [P | I]; [left; exact P | right; right; exact I].
Qed.

Lemma field_absent (fields : list (jsstring * json)) (k : jsstring) :
  ~ In k (List.map fst fields) -> field k fields = None.
Proof.
  induction fields as [|[k' v'] rest IH]; [reflexivity|].
  cbn [List.map fst In field]. intros H.
  destruct (str_eqb k k') eqn:E.
  - apply str_eqb_eq in E. exfalso. apply H. left. symmetry. exact E.
  - apply IH. intros I. apply H. right. exact I.
Qed.

Lemma dish_is_not_proto : lit "dish" <> lit "__proto__".
Proof. vm_compute. discriminate. Qed.

(** Where the copy finds [dish]: in the body, or else in the object
    that the body has under the key [__proto__]. *)
Lemma clone_get_dish (fields : list (jsstring * json)) (v : json) :
  clone_get fields (lit "dish") = Some v ->
  field (lit "dish") fields = Some v
  \/ (field (lit "dish") fields = None
      /\ exists inherited,
           field (lit "__proto__") fields = Some (JObject inherited)
           /\ field (lit "dish") inherited = Some v).
Proof.
  unfold clone_get. rewrite (field_clone_own fields dish_is_not_proto).
  destruct (field (lit "dish") fields) as [w|]; [intros H; left; exact H|].
  destruct (field (lit "__proto__") fields) as [[| | | | |inherited]|]; try discriminate.
  intros H. right. split; [reflexivity|]. exists inherited. auto.
Qed.

(** What the schema has checked when it returns a value. *)
Lemma schema_accepts_inv (b : json) (v : jsstring) :
  textEstimationSchema b = inr v ->
  exists fields,
    b = JObject fields
    /\ clone_get fields (lit "dish") = Some (JString v)
    /\ (forall k, In k (List.map fst fields) -> k = lit "dish" \/ k = lit "__proto__")
    /\ v <> []
    /\ run_rules dish_rules v = None.
Proof.
  unfold textEstimationSchema. destruct b as [| | | |items|fields]; try discriminate.
  destruct (Joi_string_required dish_rules (clone_get fields (lit "dish"))) eqn:J;
    [discriminate|].
  destruct (filter (fun k => negb (str_eqb k (lit "dish")))
                   (List.map fst (clone_own fields))) eqn:F;
    [|discriminate].
  destruct (clone_get fields (lit "dish")) as [[| | |s| |]|] eqn:D; try discriminate.
  intros H. injection H as ->. exists fields.
  split; [reflexivity|]. split; [exact D|]. split.
  - intros k Hk. destruct (keys_clone_own fields k Hk) as [P | I]; [right; exact P|].
    left. pose proof (filter_nil _ _ F k I) as E.
    apply negb_false_iff, str_eqb_eq in E. exact E.
  - cbn [Joi_string_required] in J. destruct v as [|c t]; [discriminate|].
    split; [discriminate | exact J].
Qed.

Lemma text_accepted_inv (body : option json) (out : json) :
  validateTextEstimation body = next out ->
  exists b v,
    body = Some b
    /\ textEstimationSchema b = inr v
    /\ out = dish_body (sanitizeTextInput v).
Proof.
  unfold validateTextEstimation. destruct body as [b|]; [|discriminate].
  destruct (falsy_body (Some b) || negb (typeof_object b)); [discriminate|].
  destruct (10000 <? N.of_nat (stringify_length b))%N; [discriminate|].
  destruct (10 <? key_count b); [discriminate|].
  destruct (textEstimationSchema b) as [d|v] eqn:S.
  - destruct (logged_dish_throws b); discriminate.
  - intros H. injection H as <-. exists b, v. auto.
Qed.

(** X13: whatever the body, when the text middleware goes on, the body
    was an object with no key other than [dish] and [__proto__]; the
    value of [dish], found in the body or else in the object that the
    body has under [__proto__], was a string of at most 200 code units
    from the character class; and the body handed on is [{dish: s}]
    with [s] that value trimmed, which is not empty: on an accepted
    value the sanitizer neither strips nor truncates. *)
Theorem text_accepted_output (body : option json) (out : json) :
  validateTextEstimation body = next out ->
  exists fields raw,
    body = Some (JObject fields)
    /\ (field (lit "dish") fields = Some (JString raw)
        \/ (field (lit "dish") fields = None
            /\ exists inherited,
                 field (lit "__proto__") fields = Some (JObject inherited)
                 /\ field (lit "dish") inherited = Some (JString raw)))
    /\ (forall k, In k (List.map fst fields) -> k = lit "dish" \/ k = lit "__proto__")
    /\ List.length raw <= 200
    /\ forallb dish_char raw = true
    /\ out = dish_body (trim raw)
    /\ trim raw <> [].
Proof.
  intros H. destruct (text_accepted_inv _ H) as (b & v & -> & S & ->).
  destruct (schema_accepts_inv _ S) as (fields & -> & D & K & _ & R).
  destruct (rules_none _ R) as (L & A & T & _ & _).
  exists fields, v. rewrite (sanitize_allowed v A L).
  split; [reflexivity|]. split; [exact (clone_get_dish _ D)|].
  repeat match goal with |- _ /\ _ => split end; auto.
Qed.

Lemma text_accepted_output_witness :
  validateTextEstimation (Some inherited_dish_body)
  = next (dish_body (lit "Pad Thai"))
  /\ exists fields raw,
       Some inherited_dish_body = Some (JObject fields)
       /\ (field (lit "dish") fields = Some (JString raw)
           \/ (field (lit "dish") fields = None
               /\ exists inherited,
                    field (lit "__proto__") fields = Some (JObject inherited)
                    /\ field (lit "dish") inherited = Some (JString raw)))
       /\ (forall k, In k (List.map fst fields) -> k = lit "dish" \/ k = lit "__proto__")
       /\ List.length raw <= 200
       /\ forallb dish_char raw = true
       /\ dish_body (lit "Pad Thai") = dish_body (trim raw)
       /\ trim raw <> [].
Proof.
  assert (H : validateTextEstimation (Some inherited_dish_body)
              = next (dish_body (lit "Pad Thai"))) by (vm_compute; reflexivity).
  split; [exact H | exact (@text_accepted_output _ _ H)].
Defined.

(** Three bodies at the edges of the schema: the key [__proto__] beside
    [dish] does not stand in the way, a [dish] that is a number ends in
    a [TypeError], and a [dish] that is [null] in an error of the
    middleware's own. *)
Example bodies_with_proto_or_number :
  validateTextEstimation
    (Some (JObject [(lit "__proto__", JNumber (lit "1"));
                    (lit "dish", JString (lit "Pad Thai"))]))
  = next (dish_body (lit "Pad Thai"))
  /\ validateTextEstimation (Some (JObject [(lit "dish", JNumber (lit "5"))]))
     = next_TypeError
  /\ validateTextEstimation (Some (JObject [(lit "dish", JNull)]))
     = dish_rejected string_base.
Proof. by_computation. Qed.

(** X14: a body with a key other than [dish] and [__proto__] is never
    accepted, whatever it has under [dish]. *)
Theorem unknown_key_is_refused
    (fields : list (jsstring * json)) (k : jsstring) (out : json) :
  In k (List.map fst fields) -> k <> lit "dish" -> k <> lit "__proto__" ->
  validateTextEstimation (Some (JObject fields)) <> next out.
Proof.
  intros I ND NP V.
  destruct (text_accepted_inv _ V) as (b & v & B & S & _).
  injection B as <-.
  destruct (schema_accepts_inv _ S) as (fields' & F & _ & K & _).
  injection F as <-. destruct (K k I); contradiction.
Qed.

Lemma unknown_key_is_refused_witness :
  let fields := [(lit "dish", JString (lit "Pad Thai")); (lit "admin", JBool true)] in
  In (lit "admin") (List.map fst fields)
  /\ lit "admin" <> lit "dish"
  /\ lit "admin" <> lit "__proto__"
  /\ validateTextEstimation (Some (JObject fields)) <> next (dish_body (lit "Pad Thai")).
Proof.
  intros fields.
  assert (H1 : In (lit "admin") (List.map fst fields)) by (right; left; reflexivity).
  assert (H2 : lit "admin" <> lit "dish") by (vm_compute; discriminate).
  assert (H3 : lit "admin" <> lit "__proto__") by (vm_compute; discriminate).
  split; [exact H1|]. split; [exact H2|]. split; [exact H3|].
  exact (@unknown_key_is_refused fields (lit "admin") (dish_body (lit "Pad Thai")) H1 H2 H3).
Defined.

Lemma distinct_dish_fields (fields : list (jsstring * json)) (v : json) :
  NoDup (List.map fst fields) ->
  (forall k, In k (List.map fst fields) -> k = lit "dish") ->
  field (lit "dish") fields = Some v ->
  fields = [(lit "dish", v)].
Proof.
  intros ND K D. destruct fields as [|[k1 v1] rest]; [discriminate|].
  assert (E1 : k1 = lit "dish") by (apply K; left; reflexivity). subst k1.
  cbn [field] in D. rewrite str_eqb_refl in D. injection D as ->.
  destruct rest as [|[k2 v2] rest]; [reflexivity|].
  exfalso. assert (E2 : k2 = lit "dish") by (apply K; right; left; reflexivity).
  subst k2. cbn [List.map fst] in ND. inversion ND as [|? ? N1 _].
  apply N1. left. reflexivity.
Qed.

(** X15: on a body that has no key [__proto__] of its own, the two
    checks that come before the schema, of the size of the body and of
    the number of its keys, never turn away what the schema accepts:
    the schema alone decides whether the request goes on. *)
Theorem schema_alone_decides (fields : list (jsstring * json)) (v : jsstring) :
  NoDup (List.map fst fields) ->
  ~ In (lit "__proto__") (List.map fst fields) ->
  textEstimationSchema (JObject fields) = inr v ->
  validateTextEstimation (Some (JObject fields)) = next (dish_body (sanitizeTextInput v)).
Proof.
  intros ND NP S.
  destruct (schema_accepts_inv _ S) as (fields' & F & D & K & NE & R).
  injection F as <-.
  assert (K' : forall k, In k (List.map fst fields) -> k = lit "dish").
  { intros k I. destruct (K k I) as [E | E]; [exact E|]. subst k. contradiction. }
  assert (D' : field (lit "dish") fields = Some (JString v)).
  { destruct (clone_get_dish _ D) as [D' | (_ & inherited & P & _)]; [exact D'|].
    rewrite (field_absent _ _ NP) in P. discriminate. }
  rewrite (@distinct_dish_fields fields (JString v) ND K' D').
  destruct (rules_none _ R) as (L & A & T & M & Rp).
  change (JObject [(lit "dish", JString v)]) with (dish_body v).
  rewrite (validate_dish_body v A M Rp).
  pose proof (quoted_length_bound v) as Q.
  destruct (10000 <? N.of_nat (11 + quoted_length v))%N eqn:B.
  - apply N.ltb_lt in B. exfalso. lia.
  - destruct v as [|c t]; [congruence|].
    apply Nat.ltb_ge in L. rewrite L.
    destruct (List.length (trim (c :: t)) =? 0) eqn:Z; [|reflexivity].
    apply Nat.eqb_eq in Z. exfalso. apply T.
    destruct (trim (c :: t)); [reflexivity | discriminate].
Qed.

Lemma schema_alone_decides_witness :
  NoDup (List.map fst [(lit "dish", JString (lit "Dal makhani"))])
  /\ ~ In (lit "__proto__") (List.map fst [(lit "dish", JString (lit "Dal makhani"))])
  /\ textEstimationSchema (JObject [(lit "dish", JString (lit "Dal makhani"))])
     = inr (lit "Dal makhani")
  /\ validateTextEstimation (Some (JObject [(lit "dish", JString (lit "Dal makhani"))]))
     = next (dish_body (sanitizeTextInput (lit "Dal makhani"))).
Proof.
  assert (H1 : NoDup (List.map fst [(lit "dish", JString (lit "Dal makhani"))]))
    by (constructor; [intros [] | constructor]).
  assert (H2 : ~ In (lit "__proto__")
                    (List.map fst [(lit "dish", JString (lit "Dal makhani"))])).
  { intros [E | []]. vm_compute in E. discriminate. }
  assert (H3 : textEstimationSchema (JObject [(lit "dish", JString (lit "Dal makhani"))])
               = inr (lit "Dal makhani")) by (vm_compute; reflexivity).
  split; [exact H1|]. split; [exact H2|]. split; [exact H3|].
  exact (@schema_alone_decides _ _ H1 H2 H3).
Defined.

(** With a key [__proto__] the two differ: the copy that the schema
    sees has lost the key and what is under it, which the size that is
    checked first still counts. *)
Example proto_counts_for_the_size :
  textEstimationSchema long_proto_body = inr (lit "Pad Thai")
  /\ validateTextEstimation (Some long_proto_body) = throw BodyTooLarge NoDetails.
Proof. by_computation. Qed.

(** *** The patterns of the custom rule *)

Lemma many_inv p k s : many p k s = true -> exists a t, s = a ++ t /\ k t = true.
Proof.
  induction s as [|c s IH]; cbn [many].
  - rewrite orb_false_r. intros H. exists [], []. auto.
  - destruct (k (c :: s)) eqn:K.
    + intros _. exists [], (c :: s). auto.
    + cbn [orb]. intros H. apply andb_true_iff in H. destruct H as [_ H].
      destruct (IH H) as (a & t & -> & Ht). exists (c :: a), t. auto.
Qed.

(** A match has, for every single-character item of the pattern, a
    code unit of the input in the class of the item. *)
Lemma match_here_needs pat p :
  In (One p) pat ->
  forall s, match_here pat s = true -> exists c, In c s /\ p c = true.
Proof.
  induction pat as [|i pat IH]; intros I s H; [destruct I|].
  destruct i as [p0|p0|].
  - destruct s as [|c t]; [discriminate|]. cbn [match_here] in H.
    apply andb_true_iff in H. destruct H as [Hc Ht].
    destruct I as [I | I].
    + injection I as ->. exists c. split; [left; reflexivity | exact Hc].
    + destruct (IH I t Ht) as (c' & Hin & Hp). exists c'. split; [right|]; assumption.
  - destruct I as [I | I]; [discriminate|]. cbn [match_here] in H.
    apply many_inv in H. destruct H as (a & t & -> & Ht).
    destruct (IH I t Ht) as (c' & Hin & Hp). exists c'.
    split; [apply in_or_app; right; exact Hin | exact Hp].
  - destruct I as [I | I]; [discriminate|].
    destruct s as [|c t]; [|discriminate]. cbn [match_here] in H. exact (IH I [] H).
Qed.

Lemma test_inv pat s : test pat s = true -> exists a t, s = a ++ t /\ match_here pat t = true.
Proof.
  induction s as [|c s IH]; cbn [test].
  - rewrite orb_false_r. intros H. exists [], []. auto.
  - destruct (match_here pat (c :: s)) eqn:M.
    + intros _. exists [], (c :: s). auto.
    + cbn [orb]. intros H. destruct (IH H) as (a & t & -> & Ht).
      exists (c :: a), t. auto.
Qed.

(** A pattern with a character outside the character class of [dish]
    matches no value of that class. *)
Lemma pattern_outside_class pat p s :
  In (One p) pat ->
  (forall c, p c = true -> dish_char c = false) ->
  forallb dish_char s = true ->
  test pat s = false.
Proof.
  intros I P A. destruct (test pat s) eqn:T; [|reflexivity]. exfalso.
  apply test_inv in T. destruct T as (a & t & -> & M).
  destruct (match_here_needs _ _ I t M) as (c & Hc & Hp).
  rewrite forallb_forall in A. specialize (A c (in_or_app _ _ _ (or_intror Hc))).
  rewrite (P c Hp) in A. discriminate.
Qed.

Lemma fold_case_symbol d x :
  is_lower d = false -> (fold_case x =? d)%N = true -> x = d.
Proof.
  intros L H. apply N.eqb_eq in H. unfold fold_case in H.
  destruct (is_upper x) eqn:U; [|exact H].
  exfalso. subst d. unfold_classes. to_arith; lia.
Qed.

Lemma ci_item w c :
  In c (lit w) -> In (One (fun x => (fold_case x =? fold_case c)%N)) (ci w).
Proof.
  intros H. unfold ci.
  exact (in_map (fun c => One (fun x => (fold_case x =? fold_case c)%N)) (lit w) c H).
Qed.

Lemma cs_item w c : In c (lit w) -> In (One (N.eqb c)) (cs w).
Proof.
  intros H. unfold cs. exact (in_map (fun c => One (N.eqb c)) (lit w) c H).
Qed.

(** A pattern under [i] with a character in it that is no letter and is
    not in the character class. *)
Lemma ci_outside_class w d s :
  In d (lit w) -> is_lower d = false -> is_upper d = false -> dish_char d = false ->
  forallb dish_char s = true -> test (ci w) s = false.
Proof.
  intros I L U D A.
  apply (@pattern_outside_class (ci w) (fun x => (fold_case x =? fold_case d)%N) s);
    [apply ci_item, I | | exact A].
  intros c H. unfold fold_case at 2 in H. rewrite U in H.
  rewrite (fold_case_symbol _ _ L H). exact D.
Qed.

Lemma cs_outside_class w d s :
  In d (lit w) -> dish_char d = false ->
  forallb dish_char s = true -> test (cs w) s = false.
Proof.
  intros I D A.
  apply (@pattern_outside_class (cs w) (N.eqb d) s); [apply cs_item, I | | exact A].
  intros c H. apply N.eqb_eq in H. subst c. exact D.
Qed.

(** X16: seven of the eighteen suspicious patterns (the script tag, the
    [javascript:] scheme, the two event handlers, both path-traversal
    patterns and [__proto__]) have a character that the character class
    of [dish] does not have; the class is checked first, so on a value
    that reaches the custom rule none of the seven ever matches. *)
Theorem unreachable_patterns_never_match (s : jsstring) (pat : pattern) :
  forallb dish_char s = true ->
  In pat unreachable_patterns ->
  In pat suspiciousPatterns /\ test pat s = false.
Proof.
  intros A I. unfold unreachable_patterns in I. cbn [In] in I.
  destruct I as [<- | [<- | [<- | [<- | [<- | [<- | [<- | []]]]]]]].
  - split; [left; reflexivity|].
    apply (@ci_outside_class "<script" 60%N); auto; vm_compute; auto.
  - split; [right; left; reflexivity|].
    apply (@ci_outside_class "javascript:" 58%N); auto; vm_compute; auto 20.
  - split; [do 2 right; left; reflexivity|].
    apply (@ci_outside_class "onload=" 61%N); auto; vm_compute; auto 20.
  - split; [do 3 right; left; reflexivity|].
    apply (@ci_outside_class "onerror=" 61%N); auto; vm_compute; auto 20.
  - split; [do 13 right; left; reflexivity|].
    apply (@cs_outside_class "../" 47%N); auto; vm_compute; auto 20.
  - split; [do 14 right; left; reflexivity|].
    apply (@ci_outside_class "..\/g, /etc/passwd" 47%N); auto; vm_compute; auto 20.
  - split; [do 15 right; left; reflexivity|].
    apply (@ci_outside_class "__proto__" 95%N); auto; vm_compute; auto 20.
Qed.

Lemma unreachable_patterns_never_match_witness :
  forallb dish_char (lit "Spaghetti (al dente), s'il vous plait!") = true
  /\ In (ci "<script") unreachable_patterns
  /\ test (ci "<script") (lit "Spaghetti (al dente), s'il vous plait!") = false.
Proof.
  assert (H1 : forallb dish_char (lit "Spaghetti (al dente), s'il vous plait!") = true)
    by (vm_compute; reflexivity).
  assert (H2 : In (ci "<script") unreachable_patterns) by (left; reflexivity).
  split; [exact H1|]. split; [exact H2|].
  exact (proj2 (@unreachable_patterns_never_match _ _ H1 H2)).
Defined.

(** *** Validating again what was accepted *)

Lemma trimStart_suffix s : exists a, s = a ++ trimStart s.
Proof.
  induction s as [|c s [a IH]]; [exists []; reflexivity|].
  cbn [trimStart]. destruct (is_space c).
  - exists (c :: a). cbn [app]. f_equal. exact IH.
  - exists []. reflexivity.
Qed.

Lemma trimEnd_prefix s : exists b, s = trimEnd s ++ b.
Proof.
  induction s as [|c s [b IH]]; [exists []; reflexivity|].
  cbn [trimEnd]. destruct (forallb is_space (c :: s)).
  - exists (c :: s). reflexivity.
  - exists b. cbn [app]. f_equal. exact IH.
Qed.

Lemma trim_inside s : exists a b, s = a ++ trim s ++ b.
Proof.
  destruct (trimStart_suffix s) as [a A].
  destruct (trimEnd_prefix (trimStart s)) as [b B].
  exists a, b. unfold trim. rewrite <- B. exact A.
Qed.

Lemma test_app_l pat a t : test pat t = true -> test pat (a ++ t) = true.
Proof.
  intros H. induction a as [|c a IH]; [exact H|].
  cbn [app test]. rewrite IH. apply orb_true_r.
Qed.

Lemma many_app p (k k' : jsstring -> bool) b :
  (forall u, k u = true -> k' (u ++ b) = true) ->
  forall t, many p k t = true -> many p k' (t ++ b) = true.
Proof.
  intros K. induction t as [|c t IH]; intros H.
  - cbn [many] in H. rewrite orb_false_r in H. apply K in H. cbn [app] in *.
    destruct b; cbn [many]; rewrite H; reflexivity.
  - cbn [many] in H. cbn [app many]. apply orb_true_iff in H. destruct H as [H | H].
    + pose proof (K _ H) as H'. cbn [app] in H'. rewrite H'. reflexivity.
    + apply andb_true_iff in H. destruct H as [Hc Ht].
      rewrite Hc, (IH Ht). apply orb_true_r.
Qed.

(** A match of a pattern without [$] stays one when the input goes on. *)
Lemma match_here_app pat b :
  eos_free pat = true ->
  forall t, match_here pat t = true -> match_here pat (t ++ b) = true.
Proof.
  induction pat as [|i pat IH]; intros E t H; [reflexivity|].
  cbn [eos_free forallb] in E. apply andb_true_iff in E. destruct E as [Ei E].
  destruct i as [p|p|]; [| |discriminate].
  - destruct t as [|c t]; [discriminate|]. cbn [match_here] in H.
    apply andb_true_iff in H. destruct H as [Hc Ht].
    cbn [app match_here]. rewrite Hc. exact (IH E t Ht).
  - cbn [match_here] in *. exact (many_app p _ _ b (IH E) t H).
Qed.

Lemma test_app_r pat b t :
  eos_free pat = true -> test pat t = true -> test pat (t ++ b) = true.
Proof.
  intros E. induction t as [|c t IH]; intros H.
  - cbn [test] in H. rewrite orb_false_r in H.
    apply (match_here_app pat b E) in H. cbn [app] in *.
    destruct b; cbn [test]; rewrite H; reflexivity.
  - cbn [test] in H. cbn [app test]. apply orb_true_iff in H. destruct H as [H | H].
    + apply (match_here_app pat b E) in H. cbn [app] in H. rewrite H. reflexivity.
    + rewrite (IH H). apply orb_true_r.
Qed.

Lemma suspicious_eos_free : forallb eos_free suspiciousPatterns = true.
Proof. vm_compute. reflexivity. Qed.

(** What is suspicious in a part of a value is suspicious in the value. *)
Lemma malicious_inside a t b : malicious t = true -> malicious (a ++ t ++ b) = true.
Proof.
  unfold malicious. intros H. apply existsb_exists in H. destruct H as (pat & I & T).
  apply existsb_exists. exists pat. split; [exact I|].
  apply test_app_l, test_app_r; [|exact T].
  pose proof suspicious_eos_free as E. rewrite forallb_forall in E. apply E, I.
Qed.

Lemma run_length_app c t b : run_length c t <= run_length c (t ++ b).
Proof.
  induction t as [|d t IH]; [apply Nat.le_0_l|].
  cbn [app run_length]. destruct (d =? c)%N; [apply le_n_S, IH | apply Nat.le_refl].
Qed.

Lemma repeatedChars_app_r t b : repeatedChars t = true -> repeatedChars (t ++ b) = true.
Proof.
  induction t as [|c t IH]; [discriminate|].
  cbn [app repeatedChars]. intros H. apply orb_true_iff in H. destruct H as [H | H].
  - apply andb_true_iff in H. destruct H as [Hd Hr]. rewrite Hd. cbn [andb].
    apply Nat.leb_le in Hr. pose proof (run_length_app c t b) as R.
    assert (E : (50 <=? run_length c (t ++ b)) = true) by (apply Nat.leb_le; lia).
    rewrite E. reflexivity.
  - rewrite (IH H). apply orb_true_r.
Qed.

Lemma repeatedChars_app_l a t : repeatedChars t = true -> repeatedChars (a ++ t) = true.
Proof.
  intros H. induction a as [|c a IH]; [exact H|].
  cbn [app repeatedChars]. rewrite IH. apply orb_true_r.
Qed.

Lemma trim_keeps_clean s :
  malicious s = false -> repeatedChars s = false ->
  malicious (trim s) = false /\ repeatedChars (trim s) = false.
Proof.
  intros M R. destruct (trim_inside s) as (a & b & E). split.
  - destruct (malicious (trim s)) eqn:T; [|reflexivity].
    apply (malicious_inside a _ b) in T. rewrite <- E in T. congruence.
  - destruct (repeatedChars (trim s)) eqn:T; [|reflexivity].
    apply (repeatedChars_app_r _ b), (repeatedChars_app_l a) in T.
    rewrite <- E in T. congruence.
Qed.

(** X17: what the text middleware hands on it accepts again, and hands
    on unchanged: validation is idempotent on its own output. *)
Theorem text_validation_is_idempotent (body : option json) (out : json) :
  validateTextEstimation body = next out ->
  validateTextEstimation (Some out) = next out.
Proof.
  intros H. destruct (text_accepted_inv _ H) as (b & v & _ & S & ->).
  destruct (schema_accepts_inv _ S) as (fields & _ & _ & _ & _ & R).
  destruct (rules_none _ R) as (L & A & T & M & Rp).
  rewrite (sanitize_allowed v A L).
  destruct (trim_keeps_clean v M Rp) as [M' R'].
  pose proof (trim_forallb dish_char v A) as A'.
  pose proof (trim_length v) as L'.
  rewrite (validate_dish_body (trim v) A' M' R').
  pose proof (quoted_length_bound (trim v)) as Q.
  destruct (10000 <? N.of_nat (11 + quoted_length (trim v)))%N eqn:B.
  - apply N.ltb_lt in B. exfalso. lia.
  - rewrite (sanitize_allowed (trim v) A') by lia. rewrite trim_idem.
    destruct (trim v) as [|c t] eqn:E; [congruence|].
    assert (F : (200 <? List.length (c :: t)) = false) by (apply Nat.ltb_ge; lia).
    rewrite F. reflexivity.
Qed.

Lemma text_validation_is_idempotent_witness :
  validateTextEstimation (Some (dish_body (lit "  Pad Thai ")))
  = next (dish_body (lit "Pad Thai"))
  /\ validateTextEstimation (Some (dish_body (lit "Pad Thai")))
     = next (dish_body (lit "Pad Thai")).
Proof.
  assert (H : validateTextEstimation (Some (dish_body (lit "  Pad Thai ")))
              = next (dish_body (lit "Pad Thai"))) by (vm_compute; reflexivity).
  split; [exact H | exact (@text_validation_is_idempotent _ _ H)].
Defined.

(* ================================================================== *)
(** ** More on the upload route *)
(* ================================================================== *)

Lemma isValidHeader_entry mt buf :
  isValidHeader mt buf = true ->
  exists header, In (mt, header) imageHeaders /\ starts_with_bytes header buf = true.
Proof.
  rewrite isValidHeader_by_type. intros H.
  apply orb_true_iff in H. destruct H as [H | H];
    [|apply orb_true_iff in H; destruct H as [H | H]];
    apply andb_true_iff in H; destruct H as [E S];
    apply str_eqb_eq in E; subst mt; eexists; (split; [|exact S]).
  - left. reflexivity.
  - right. left. reflexivity.
  - right. right. left. reflexivity.
Qed.

(** X18: whatever is accepted by the upload middleware is a file of one
    of the three types that have a signature, at least 100 bytes long,
    within the size limit, whose first bytes are the signature of the
    declared type, and whose name, when it has one, has at most 255
    code units and none of the denied extensions. *)
Theorem upload_accepted_is_sound (maxFileSizeMB : Q) (upload : option File) :
  validateImageUpload maxFileSizeMB upload = next tt ->
  exists file buf header,
    upload = Some file
    /\ buffer file = Some buf
    /\ In (mimetype file, header) imageHeaders
    /\ starts_with_bytes header buf = true
    /\ 100 <= List.length buf
    /\ (inject_Z (Z.of_N (size file)) <= maxFileSizeMB * 1024 * 1024)%Q
    /\ (forall n, filename file = Some n ->
          List.length n <= 255
          /\ existsb (fun pat => test pat n) suspiciousFilenames = false).
Proof.
  unfold validateImageUpload. destruct upload as [file|]; [|discriminate].
  destruct (negb (existsb (str_eqb (mimetype file)) allowedTypes)); [discriminate|].
  destruct (Qle_bool (inject_Z (Z.of_N (size file))) (maxFileSizeMB * 1024 * 1024))
    eqn:S; [|discriminate].
  cbn [negb]. destruct (buffer file) as [[|b buf]|] eqn:B; try discriminate.
  destruct (match filename file with
            | Some n => 255 <? List.length n
            | None => false
            end) eqn:F1; [discriminate|].
  destruct (match filename file with
            | Some n => existsb (fun pat => test pat n) suspiciousFilenames
            | None => false
            end) eqn:F2; [discriminate|].
  destruct (List.length (b :: buf) <? 100) eqn:L; [discriminate|].
  destruct (isValidHeader (mimetype file) (b :: buf)) eqn:V; [|discriminate].
  intros _. destruct (isValidHeader_entry _ _ V) as (header & I & P).
  exists file, (b :: buf), header.
  repeat match goal with |- _ /\ _ => split end; auto.
  - apply Nat.ltb_ge, L.
  - apply Qle_bool_iff, S.
  - intros n E. rewrite E in F1, F2. split; [apply Nat.ltb_ge, F1 | exact F2].
Qed.

Lemma upload_accepted_is_sound_witness :
  validateImageUpload 10 (Some (jpeg_upload "image/jpeg")) = next tt
  /\ exists file buf header,
       Some (jpeg_upload "image/jpeg") = Some file
       /\ buffer file = Some buf
       /\ In (mimetype file, header) imageHeaders
       /\ starts_with_bytes header buf = true
       /\ 100 <= List.length buf
       /\ (inject_Z (Z.of_N (size file)) <= 10 * 1024 * 1024)%Q
       /\ (forall n, filename file = Some n ->
             List.length n <= 255
             /\ existsb (fun pat => test pat n) suspiciousFilenames = false).
Proof.
  assert (H : validateImageUpload 10 (Some (jpeg_upload "image/jpeg")) = next tt)
    by (vm_compute; reflexivity).
  split; [exact H | exact (@upload_accepted_is_sound _ _ H)].
Defined.

Lemma match_ci_end l e :
  List.map fold_case e = List.map fold_case l ->
  match_here (List.map (fun c => One (fun x => (fold_case x =? fold_case c)%N)) l ++ [Eos]) e
  = true.
Proof.
  revert e; induction l as [|c l IH]; intros e H.
  - destruct e; [reflexivity | discriminate].
  - destruct e as [|x e]; [discriminate|]. cbn [List.map] in H.
    injection H as Hx He. cbn [List.map app match_here].
    rewrite Hx, N.eqb_refl. exact (IH e He).
Qed.

Lemma test_of_match pat t : match_here pat t = true -> test pat t = true.
Proof. intros H. destruct t; cbn [test]; rewrite H; reflexivity. Qed.

Lemma suspiciousFilenames_extensions :
  suspiciousFilenames = List.map (fun ext => ci ext ++ [Eos]) denied_extensions.
Proof. reflexivity. Qed.

(** A name that ends in a denied extension, in whatever letter case, is
    found suspicious. *)
Lemma denied_extension_found (ext : string) (stem e : jsstring) :
  In ext denied_extensions ->
  List.map fold_case e = List.map fold_case (lit ext) ->
  existsb (fun pat => test pat (stem ++ e)) suspiciousFilenames = true.
Proof.
  intros I H. apply existsb_exists. exists (ci ext ++ [Eos]). split.
  - rewrite suspiciousFilenames_extensions.
    exact (in_map (fun ext => ci ext ++ [Eos]) denied_extensions ext I).
  - apply test_app_l, test_of_match. unfold ci. apply match_ci_end, H.
Qed.

Lemma denied_extension_nonempty (ext : string) :
  In ext denied_extensions -> lit ext <> [].
Proof.
  intros I. unfold denied_extensions in I. cbn [In] in I.
  repeat (destruct I as [<- | I]; [discriminate|]). destruct I.
Qed.

(** X19: an upload whose name ends in one of the fourteen denied
    extensions, in any mix of upper and lower case, is never accepted,
    whatever its bytes and its declared type. *)
Theorem denied_extension_is_refused
    (maxFileSizeMB : Q) (file : File) (ext : string) (stem e : jsstring) :
  In ext denied_extensions ->
  List.map fold_case e = List.map fold_case (lit ext) ->
  originalname file = Some (stem ++ e) ->
  validateImageUpload maxFileSizeMB (Some file) <> next tt.
Proof.
  intros I H O.
  assert (NE : e <> []).
  { intros ->. apply (@denied_extension_nonempty ext I).
    destruct (lit ext); [reflexivity | discriminate]. }
  assert (F : filename file = Some (stem ++ e)).
  { unfold filename. rewrite O. destruct (stem ++ e) eqn:E; [|reflexivity].
    apply app_eq_nil in E. tauto. }
  pose proof (@denied_extension_found ext stem e I H) as D.
  unfold validateImageUpload. rewrite F, D.
  repeat match goal with
         | |- context [if ?b then _ else _] => destruct b; try discriminate
         | |- context [match ?b with Some _ => _ | None => _ end] =>
             destruct b; try discriminate
         | |- context [match ?b with [] => _ | _ :: _ => _ end] =>
             destruct b; try discriminate
         end.
Qed.

Lemma denied_extension_is_refused_witness :
  In ".exe"%string denied_extensions
  /\ List.map fold_case (lit ".EXE") = List.map fold_case (lit ".exe")
  /\ originalname renamed_executable = Some (lit "malware.jpg" ++ lit ".EXE")
  /\ validateImageUpload 10 (Some renamed_executable) <> next tt.
Proof.
  assert (H1 : In ".exe"%string denied_extensions) by (left; reflexivity).
  assert (H2 : List.map fold_case (lit ".EXE") = List.map fold_case (lit ".exe"))
    by (vm_compute; reflexivity).
  assert (H3 : originalname renamed_executable = Some (lit "malware.jpg" ++ lit ".EXE"))
    by reflexivity.
  split; [exact H1|]. split; [exact H2|]. split; [exact H3|].
  exact (@denied_extension_is_refused 10 renamed_executable ".exe" (lit "malware.jpg")
           (lit ".EXE") H1 H2 H3).
Defined.

(* ================================================================== *)
(** ** The two authentication middlewares *)
(* ================================================================== *)

Section Authentication.

Variable hash : jsstring -> jsstring.

Lemma truthy_string_some o k :
  Auth.truthy_string o = Some k -> o = Some k /\ k <> [].
Proof.
  destruct o as [[|c t]|]; cbn [Auth.truthy_string]; try discriminate.
  intros H. injection H as <-. split; [reflexivity | discriminate].
Qed.

Lemma truthy_string_nonempty k : k <> [] -> Auth.truthy_string (Some k) = Some k.
Proof. destruct k; [congruence | reflexivity]. Qed.

(** What the strict middleware has checked of a key it lets through. *)
Lemma authenticated_inv req a :
  Auth.authenticateApiKey hash req = Auth.authenticated a ->
  exists k,
    Auth.requested_key req = Some (Auth.QString k)
    /\ a = Auth.grant k (hash k)
    /\ 8 <= List.length k <= 128
    /\ filter Auth.key_char k = k
    /\ Auth.has (Auth.VALID_API_KEYS hash) (hash k) = true.
Proof.
  unfold Auth.authenticateApiKey.
  destruct (Auth.requested_key req) as [[[|c t]|]|]; try discriminate.
  destruct ((List.length (c :: t) <? 8) || (128 <? List.length (c :: t))) eqn:L;
    [discriminate|].
  destruct (str_eqb (filter Auth.key_char (c :: t)) (c :: t)) eqn:F;
    cbn [negb]; [|discriminate].
  destruct (Auth.has (Auth.VALID_API_KEYS hash) (hash (c :: t))) eqn:V;
    cbn [negb]; [|discriminate].
  intros H. injection H as <-. exists (c :: t).
  apply orb_false_iff in L. destruct L as [L1 L2].
  apply Nat.ltb_ge in L1. apply Nat.ltb_ge in L2. apply str_eqb_eq in F.
  repeat match goal with |- _ /\ _ => split end; auto.
Qed.

(** A key that passes the four checks is let through. *)
Lemma authenticate_key req k :
  Auth.requested_key req = Some (Auth.QString k) ->
  8 <= List.length k <= 128 ->
  filter Auth.key_char k = k ->
  Auth.has (Auth.VALID_API_KEYS hash) (hash k) = true ->
  Auth.authenticateApiKey hash req = Auth.authenticated (Auth.grant k (hash k)).
Proof.
  intros R [L1 L2] F V. unfold Auth.authenticateApiKey. rewrite R.
  destruct k as [|c t]; [simpl in L1; lia|].
  assert (E1 : (List.length (c :: t) <? 8) = false) by (apply Nat.ltb_ge; exact L1).
  assert (E2 : (128 <? List.length (c :: t)) = false) by (apply Nat.ltb_ge; exact L2).
  rewrite E1, E2, F, str_eqb_refl, V. reflexivity.
Qed.

(** Where the key of a request comes from. *)
Lemma requested_key_source req k :
  Auth.requested_key req = Some (Auth.QString k) ->
  Auth.x_api_key req = Some k
  \/ (exists header,
        Auth.authorization req = Some header
        /\ Auth.replace_first (lit "Bearer ") [] header = k)
  \/ Auth.query_api_key req = Some (Auth.QString k).
Proof.
  unfold Auth.requested_key.
  destruct (Auth.truthy_string (Auth.x_api_key req)) as [k1|] eqn:X.
  - intros H. injection H as <-. left. exact (proj1 (truthy_string_some _ X)).
  - destruct (Auth.truthy_string (Auth.bearer req)) as [k2|] eqn:B.
    + intros H. injection H as <-. right. left.
      apply truthy_string_some in B. destruct B as [B _].
      unfold Auth.bearer in B.
      destruct (Auth.authorization req) as [header|]; [|discriminate].
      cbn [option_map] in B. injection B as B. exists header. auto.
    + intros H. right. right. exact H.
Qed.

(** X20: every key that the strict middleware lets through is the key
    of the request, the one in the header [X-API-Key], the header
    [Authorization] without its first [Bearer ], or the parameter
    [api_key]; it has between 8 and 128 characters, all of them
    letters, digits, hyphens or underscores, and a hash that is the
    hash of a configured key; [req.auth] carries that key, and a user
    id that is [user_] followed by the first eight characters of the
    hash. *)
Theorem authenticated_key_is_well_formed (req : Auth.Request) (a : Auth.AuthInfo) :
  Auth.authenticateApiKey hash req = Auth.authenticated a ->
  Auth.requested_key req = Some (Auth.QString (Auth.apiKey a))
  /\ (Auth.x_api_key req = Some (Auth.apiKey a)
      \/ (exists header,
            Auth.authorization req = Some header
            /\ Auth.replace_first (lit "Bearer ") [] header = Auth.apiKey a)
      \/ Auth.query_api_key req = Some (Auth.QString (Auth.apiKey a)))
  /\ 8 <= List.length (Auth.apiKey a) <= 128
  /\ forallb Auth.key_char (Auth.apiKey a) = true
  /\ (exists k, In k Auth.configured_keys /\ hash (Auth.apiKey a) = hash k)
  /\ Auth.userId a = lit "user_" ++ firstn 8 (hash (Auth.apiKey a))
  /\ Auth.isValid a = true.
Proof.
  intros H. destruct (authenticated_inv _ H) as (k & R & -> & L & F & V).
  cbn [Auth.grant Auth.apiKey Auth.userId Auth.isValid].
  split; [exact R|]. split; [exact (requested_key_source _ R)|].
  split; [exact L|]. split.
  - rewrite <- F. apply forallb_forall. intros c Hc. apply filter_In in Hc. tauto.
  - split; [|split; reflexivity].
    unfold Auth.has, Auth.VALID_API_KEYS in V. apply existsb_exists in V.
    destruct V as (h & I & E). apply in_map_iff in I. destruct I as (k' & <- & I).
    apply str_eqb_eq in E. exists k'. auto.
Qed.

(** X21: on a request without the parameter [api_key] the two
    middlewares agree: the strict one lets the request through with a
    given identity exactly when the optional one attaches that identity
    and the key has at most 128 characters, a limit that the optional
    one does not check. *)
Theorem strict_and_optional_agree (req : Auth.Request) (a : Auth.AuthInfo) :
  Auth.query_api_key req = None ->
  (Auth.authenticateApiKey hash req = Auth.authenticated a
   <-> Auth.optionalAuth hash req = Some a /\ List.length (Auth.apiKey a) <= 128).
Proof.
  intros Q. unfold Auth.authenticateApiKey, Auth.requested_key, Auth.optionalAuth.
  rewrite Q.
  assert (G : forall k,
            k <> [] ->
            (match Some (Auth.QString k) with
             | None => Auth.auth_err Auth.KeyRequired
             | Some (Auth.QString []) => Auth.auth_err Auth.KeyRequired
             | Some Auth.QOther => Auth.auth_err Auth.InvalidKeyFormat
             | Some (Auth.QString apiKey) =>
                 if (List.length apiKey <? 8) || (128 <? List.length apiKey)
                 then Auth.auth_err Auth.InvalidKeyFormat
                 else if negb (str_eqb (filter Auth.key_char apiKey) apiKey)
                 then Auth.auth_err Auth.InvalidKeyCharacters
                 else if negb (Auth.has (Auth.VALID_API_KEYS hash) (hash apiKey))
                 then Auth.auth_err Auth.InvalidKey
                 else Auth.authenticated (Auth.grant apiKey (hash apiKey))
             end = Auth.authenticated a
             <-> (if (8 <=? List.length k)
                  then if str_eqb (filter Auth.key_char k) k
                       then if Auth.has (Auth.VALID_API_KEYS hash) (hash k)
                            then Some (Auth.grant k (hash k))
                            else None
                       else None
                  else None) = Some a /\ List.length (Auth.apiKey a) <= 128)).
  { intros [|c t] NE; [congruence|].
    destruct (List.length (c :: t) <? 8) eqn:L1.
    - apply Nat.ltb_lt in L1.
      assert (E : (8 <=? List.length (c :: t)) = false) by (apply Nat.leb_gt; exact L1).
      rewrite E. cbn [orb]. split; [discriminate | intros [H _]; discriminate].
    - apply Nat.ltb_ge in L1.
      assert (E : (8 <=? List.length (c :: t)) = true) by (apply Nat.leb_le; exact L1).
      rewrite E. cbn [orb].
      destruct (str_eqb (filter Auth.key_char (c :: t)) (c :: t)); cbn [negb].
      + destruct (Auth.has (Auth.VALID_API_KEYS hash) (hash (c :: t))); cbn [negb].
        * destruct (128 <? List.length (c :: t)) eqn:L2.
          -- apply Nat.ltb_lt in L2. split; [discriminate|].
             intros [H U]. injection H as <-. cbn [Auth.grant Auth.apiKey] in U. lia.
          -- apply Nat.ltb_ge in L2. split.
             ++ intros H. injection H as <-. split; [reflexivity | exact L2].
             ++ intros [H _]. injection H as <-. reflexivity.
        * destruct (128 <? List.length (c :: t));
            (split; [discriminate | intros [H _]; discriminate]).
      + destruct (128 <? List.length (c :: t));
          (split; [discriminate | intros [H _]; discriminate]). }
  destruct (Auth.truthy_string (Auth.x_api_key req)) as [k|] eqn:X.
  - apply truthy_string_some in X. destruct X as [_ NE].
    destruct k as [|c t]; [congruence|]. exact (G (c :: t) NE).
  - destruct (Auth.truthy_string (Auth.bearer req)) as [k|] eqn:B.
    + apply truthy_string_some in B. destruct B as [_ NE]. exact (G k NE).
    + split; [discriminate | intros [H _]; discriminate].
Qed.

Lemma strip_prefix_app_eq w k : strip_prefix w (w ++ k) = Some k.
Proof.
  induction w as [|c w IH]; [reflexivity|].
  cbn [app strip_prefix]. rewrite N.eqb_refl. exact IH.
Qed.

Lemma replace_first_prefix w k : Auth.replace_first w [] (w ++ k) = k.
Proof.
  destruct (w ++ k) as [|c t] eqn:E.
  - apply app_eq_nil in E. destruct E as [-> ->]. reflexivity.
  - cbn [Auth.replace_first]. rewrite <- E, strip_prefix_app_eq. reflexivity.
Qed.

Lemma configured_key_format k :
  In k Auth.configured_keys ->
  k <> [] /\ 8 <= List.length k <= 128 /\ filter Auth.key_char k = k.
Proof.
  intros I. unfold Auth.configured_keys in I. cbn [List.map In] in I.
  destruct I as [<- | [<- | [<- | []]]];
    (split; [discriminate|]; split; [vm_compute; lia | vm_compute; reflexivity]).
Qed.

(** X22: each of the three configured keys passes the checks of length
    and of characters, so that, whatever the secret, it is let through
    when it comes in the header [X-API-Key], after [Bearer ] in the
    header [Authorization], or in the parameter [api_key]. *)
Theorem configured_keys_authenticate (req : Auth.Request) (k : jsstring) :
  In k Auth.configured_keys ->
  Auth.x_api_key req = Some k
  \/ (Auth.x_api_key req = None /\ Auth.authorization req = Some (lit "Bearer " ++ k))
  \/ (Auth.x_api_key req = None /\ Auth.authorization req = None
      /\ Auth.query_api_key req = Some (Auth.QString k)) ->
  Auth.authenticateApiKey hash req = Auth.authenticated (Auth.grant k (hash k)).
Proof.
  intros I P. destruct (@configured_key_format k I) as (NE & L & F).
  apply authenticate_key; auto.
  - unfold Auth.requested_key, Auth.bearer.
    destruct k as [|c t]; [congruence|].
    destruct P as [X | [[X A] | (X & A & Q)]]; rewrite X; cbn [Auth.truthy_string].
    + reflexivity.
    + rewrite A. cbn [option_map]. rewrite replace_first_prefix. reflexivity.
    + rewrite A. cbn [option_map Auth.truthy_string]. exact Q.
  - unfold Auth.has, Auth.VALID_API_KEYS. apply existsb_exists. exists (hash k).
    split; [apply in_map, I | apply str_eqb_refl].
Qed.

End Authentication.

Lemma authenticated_key_is_well_formed_witness :
  Auth.authenticateApiKey (fun k => k) (key_in_header (lit "demo-key-1"))
  = Auth.authenticated (Auth.grant (lit "demo-key-1") (lit "demo-key-1"))
  /\ Auth.requested_key (key_in_header (lit "demo-key-1"))
     = Some (Auth.QString (lit "demo-key-1"))
  /\ 8 <= List.length (lit "demo-key-1") <= 128.
Proof.
  assert (H : Auth.authenticateApiKey (fun k => k) (key_in_header (lit "demo-key-1"))
              = Auth.authenticated (Auth.grant (lit "demo-key-1") (lit "demo-key-1")))
    by (vm_compute; reflexivity).
  split; [exact H|].
  pose proof (@authenticated_key_is_well_formed (fun k => k) _ _ H) as (R & _ & L & _).
  split; [exact R | exact L].
Defined.

Lemma strict_and_optional_agree_witness :
  Auth.query_api_key (key_in_header (lit "demo-key-1")) = None
  /\ (Auth.authenticateApiKey (fun k => k) (key_in_header (lit "demo-key-1"))
      = Auth.authenticated (Auth.grant (lit "demo-key-1") (lit "demo-key-1"))
      <-> Auth.optionalAuth (fun k => k) (key_in_header (lit "demo-key-1"))
          = Some (Auth.grant (lit "demo-key-1") (lit "demo-key-1"))
          /\ List.length (Auth.apiKey (Auth.grant (lit "demo-key-1") (lit "demo-key-1")))
             <= 128).
Proof.
  split; [reflexivity|].
  exact (@strict_and_optional_agree (fun k => k) (key_in_header (lit "demo-key-1"))
           (Auth.grant (lit "demo-key-1") (lit "demo-key-1")) eq_refl).
Defined.

Lemma configured_keys_authenticate_witness :
  In (lit "test-key-2") Auth.configured_keys
  /\ Auth.x_api_key (key_in_header (lit "test-key-2")) = Some (lit "test-key-2")
  /\ Auth.authenticateApiKey (fun k => k) (key_in_header (lit "test-key-2"))
     = Auth.authenticated (Auth.grant (lit "test-key-2") (lit "test-key-2")).
Proof.
  assert (H1 : In (lit "test-key-2") Auth.configured_keys)
    by (right; left; reflexivity).
  split; [exact H1|]. split; [reflexivity|].
  exact (@configured_keys_authenticate (fun k => k) (key_in_header (lit "test-key-2"))
           (lit "test-key-2") H1 (or_introl eq_refl)).
Defined.
